(** * COMP-Twin: the data-source fallback resolver and its dashboard surface

    A shallow embedding of

    - [resolve_parameter], the fallback resolution engine of the master plan
      (GCS_Digital_Twin_Master_Plan.md, section 8.1);
    - the formula evaluator, the registry [Load] and the per-tick scheduler
      that the design describes around it;
    - [applyCalibrationDialog] of the Modbus mapping page and [getQuality]
      of the dashboard.
*)

From Stdlib Require Import QArith Qround Ascii String DecimalString.
From stdpp Require Import gmap strings list fin_maps.

Local Open Scope string_scope.
Local Open Scope list_scope.

(** Closes a goal about a concrete run by evaluating it. *)
Ltac run := vm_compute; reflexivity.

(** ** Python-style outcomes: a call returns a value or raises *)

Inductive exn : Type :=
| CalculationError
| OtherException (name : string).

Inductive outcome (A : Type) : Type :=
| Return (a : A)
| Raise (e : exn).
Arguments Return {A} a.
Arguments Raise {A} e.

Definition obind {A B} (m : outcome A) (k : A -> outcome B) : outcome B :=
  match m with
  | Return a => k a
  | Raise e => Raise e
  end.

Global Instance outcome_ret : MRet outcome := @Return.
Global Instance outcome_bind : MBind outcome :=
  fun A B k m => obind m k.

(** ** Formulas *)

Inductive BinOp := OpAdd | OpSub | OpMul | OpDiv | OpPow.
Inductive CmpOp := CmpLt | CmpLe | CmpGt | CmpGe | CmpEq | CmpNe.

(** Modelled from the spec: the expression language of section 4.3, which the
    sources hold as free text ([calcFormula], [source.formula]): arithmetic
    [+ - * / ^], comparison, the whitelisted functions [min max clamp ln exp
    abs] and bare identifiers naming other parameters, parsed once into this
    syntax tree. *)
Inductive Formula : Type :=
| FNum (q : Q)
| FIdent (name : string)
| FBin (op : BinOp) (a b : Formula)
| FCmp (op : CmpOp) (a b : Formula)
| FMin (a b : Formula)
| FMax (a b : Formula)
| FClamp (x lo hi : Formula)
| FLn (a : Formula)
| FExp (a : Formula)
| FAbs (a : Formula).

(** The two settings of a register's [valueMode]. *)
Inductive ValueMode := ValueLIVE | ValueMANUAL.

(** The consumer-visible tags of [LiveDataResponse.sources]. *)
Inductive QualityTag := LIVE | CALCULATED | MANUAL | DEFAULT | BAD.

(** ** The resolver of section 8.1 *)

Module Resolver.

(** [live_data]: register name to the value read; [live_data.get] is the
    lookup. *)
Abbreviation LiveData := (gmap string Q).

Definition Range : Type := (Q * Q)%type.

(** A source of the priority chain, with the attributes the resolver reads:
    [source.type], [source.register], [source.range], [source.formula],
    [source.value]. *)
Record Source : Type := mkSource {
  type : string;
  register : string;
  range : Range;
  formula : Formula;
  value : option Q
}.

Record Config : Type := mkConfig {
  get_source_priority : string -> list Source
}.

(** [ParameterResult(value, source=..., quality=...)] *)
Record ParameterResult : Type := mkResult {
  pr_value : option Q;
  pr_source : string;
  pr_quality : string
}.

Section resolver.
(** The two helpers the resolver calls. *)
Variable is_valid : Q -> Range -> bool.
Variable compute : Formula -> LiveData -> Config -> outcome Q.

(** One iteration of the [for source in sources] loop: [Some o] when the
    iteration leaves the function (by [return], or by an exception that
    [except CalculationError] does not catch), [None] when it falls through
    to the next source. *)
Definition try_source (source : Source) (config : Config)
    (live_data : LiveData) : option (outcome ParameterResult) :=
  if String.eqb (type source) "modbus" then
    match live_data !! register source with
    | Some v =>
        if is_valid v (range source)
        then Some (Return (mkResult (Some v) "MODBUS" "GOOD"))
        else None
    | None => None
    end
  else if String.eqb (type source) "calculated" then
    match compute (formula source) live_data config with
    | Return v => Some (Return (mkResult (Some v) "CALCULATED" "INFERRED"))
    | Raise CalculationError => None
    | Raise e => Some (Raise e)
    end
  else if String.eqb (type source) "manual" then
    Some (Return (mkResult (value source) "MANUAL" "STATIC"))
  else if String.eqb (type source) "default" then
    Some (Return (mkResult (value source) "DEFAULT" "ASSUMED"))
  else None.

Fixpoint resolve_sources (sources : list Source) (config : Config)
    (live_data : LiveData) : outcome ParameterResult :=
  match sources with
  | [] => Return (mkResult None "NONE" "BAD")
  | source :: rest =>
      match try_source source config live_data with
      | Some o => o
      | None => resolve_sources rest config live_data
      end
  end.

Definition resolve_parameter (param_name : string) (config : Config)
    (live_data : LiveData) : outcome ParameterResult :=
  resolve_sources (get_source_priority config param_name) config live_data.

(** An entry fails when its loop iteration falls through to the next one. *)
Definition entry_fails (config : Config) (live_data : LiveData)
    (source : Source) : Prop :=
  try_source source config live_data = None.

End resolver.

(** The four kinds of chain entry. *)
Definition LiveSource (channel : string) (validRange : Range) : Source :=
  mkSource "modbus" channel validRange (FNum 0) None.
Definition CalculatedSource (f : Formula) : Source :=
  mkSource "calculated" "" (0, 0)%Q f None.
Definition ManualSource (v : option Q) : Source :=
  mkSource "manual" "" (0, 0)%Q (FNum 0) v.
Definition DefaultSource (v : option Q) : Source :=
  mkSource "default" "" (0, 0)%Q (FNum 0) v.

(** The badge shown for a result names its data source (section 8.2):
    "Value from Modbus, validated", "Derived from other live values",
    "User-entered static value", "Using factory default", "No valid source
    available". *)
Definition badge (r : ParameterResult) : option QualityTag :=
  let s := pr_source r in
  if String.eqb s "MODBUS" then Some LIVE
  else if String.eqb s "CALCULATED" then Some CALCULATED
  else if String.eqb s "MANUAL" then Some MANUAL
  else if String.eqb s "DEFAULT" then Some DEFAULT
  else if String.eqb s "NONE" then Some BAD
  else None.

End Resolver.

(** ** The engine around the resolver: evaluator, registry, scheduler *)

Module Engine.
Import Resolver.

(** Modelled from the spec: [is_valid], the range check of the Live Value
    Gate, which the sources only call: a value is valid when it lies within
    the entry's [validRange]. *)
Definition is_valid (v : Q) (r : Range) : bool :=
  Qle_bool (fst r) v && Qle_bool v (snd r).

(** One telemetry sample, [{ value, sampledAt }], and the snapshot of one poll
    cycle. The resolver's [live_data.get(register)] reads the value. *)
Record Sample : Type := mkSample {
  sample_value : Q;
  sampledAt : Z
}.

Abbreviation TelemetrySnapshot := (gmap string Sample).

Definition live_data_of (snap : TelemetrySnapshot) : LiveData :=
  sample_value <$> snap.

(** The spec's staleness condition, [now - sample_time > maxStaleness],
    written after the spec's words to compare the resolver with. *)
Definition spec_stale (now maxStaleness : Z) (s : Sample) : bool :=
  (maxStaleness <? now - sampledAt s)%Z.

(** The transcendental functions of the host's floating-point library. *)
Record MathLib : Type := mkMath {
  ln_fn : Q -> Q;
  exp_fn : Q -> Q;
  pow_fn : Q -> Q -> option Q
}.

Abbreviation ResolvedSnapshot := (gmap string ParameterResult).

Definition Qmin' (x y : Q) : Q := if Qle_bool x y then x else y.
Definition Qmax' (x y : Q) : Q := if Qle_bool x y then y else x.
Definition Qabs' (x : Q) : Q := if Qle_bool 0 x then x else Qopp x.

Definition compare_with (op : CmpOp) (x y : Q) : bool :=
  match op with
  | CmpLt => negb (Qle_bool y x)
  | CmpLe => Qle_bool x y
  | CmpGt => negb (Qle_bool x y)
  | CmpGe => Qle_bool y x
  | CmpEq => Qeq_bool x y
  | CmpNe => negb (Qeq_bool x y)
  end.

Section evaluator.
Variable math : MathLib.
Variable resolved : ResolvedSnapshot.

(** Modelled from the spec: the Formula Evaluator of section 4.3 (the sources
    only call [calculations.compute]). A bare identifier reads the value the
    named parameter resolved to in this tick; a missing or [BAD] dependency, a
    division by zero and a domain error are evaluation failures. *)
Definition lookup_ident (name : string) : outcome Q :=
  match resolved !! name with
  | Some r =>
      if String.eqb (pr_quality r) "BAD" then Raise CalculationError
      else match pr_value r with
           | Some v => Return v
           | None => Raise CalculationError
           end
  | None => Raise CalculationError
  end.

(** Modelled from the spec: the arithmetic of the evaluator; dividing by
    zero and a power outside its domain (a root of a negative number) fail. *)
Definition apply_bin (op : BinOp) (x y : Q) : outcome Q :=
  match op with
  | OpAdd => Return (x + y)%Q
  | OpSub => Return (x - y)%Q
  | OpMul => Return (x * y)%Q
  | OpDiv => if Qeq_bool y 0 then Raise CalculationError else Return (x / y)%Q
  | OpPow => match pow_fn math x y with
             | Some z => Return z
             | None => Raise CalculationError
             end
  end.

(** Modelled from the spec: evaluation of a parsed formula against the
    values resolved in this tick; the failure of a part fails the whole, and
    the logarithm of a non-positive number fails. *)
Fixpoint evaluate (f : Formula) : outcome Q :=
  match f with
  | FNum q => Return q
  | FIdent name => lookup_ident name
  | FBin op a b =>
      x ← evaluate a; y ← evaluate b; apply_bin op x y
  | FCmp op a b =>
      x ← evaluate a; y ← evaluate b;
      Return (if compare_with op x y then 1%Q else 0%Q)
  | FMin a b => x ← evaluate a; y ← evaluate b; Return (Qmin' x y)
  | FMax a b => x ← evaluate a; y ← evaluate b; Return (Qmax' x y)
  | FClamp a lo hi =>
      x ← evaluate a; l ← evaluate lo; h ← evaluate hi;
      Return (Qmax' l (Qmin' x h))
  | FLn a =>
      x ← evaluate a;
      if Qle_bool x 0 then Raise CalculationError else Return (ln_fn math x)
  | FExp a => x ← evaluate a; Return (exp_fn math x)
  | FAbs a => x ← evaluate a; Return (Qabs' x)
  end.

(** Modelled from the spec: [calculations.compute(source.formula, live_data,
    config)], which the sources only call: the formula evaluated against the
    resolved values of its dependencies in this same tick. *)
Definition compute (f : Formula) (live_data : LiveData) (config : Config)
    : outcome Q :=
  evaluate f.

End evaluator.

(** *** Parameter definitions and the registry *)

(** Modelled from the spec: a parameter definition of section 3, with its
    name (the unique key), unit and ordered source chain. *)
Record ParameterDef : Type := mkDef {
  name : string;
  unit_of : string;
  sourceChain : list Source
}.

Fixpoint idents (f : Formula) : list string :=
  match f with
  | FNum _ => []
  | FIdent x => [x]
  | FBin _ a b | FCmp _ a b | FMin a b | FMax a b => idents a ++ idents b
  | FClamp a lo hi => idents a ++ idents lo ++ idents hi
  | FLn a | FExp a | FAbs a => idents a
  end.

(** The identifiers the calculated sources of a chain reference. *)
Definition chain_refs (chain : list Source) : list string :=
  flat_map (fun s => if String.eqb (type s) "calculated"
                     then idents (formula s) else []) chain.

Definition names (defs : list ParameterDef) : list string := map name defs.

(** [Get(name)]: a pure lookup. *)
Definition Get (nm : string) (defs : list ParameterDef) : option ParameterDef :=
  find (fun d => String.eqb (name d) nm) defs.

(** The reference graph: an edge runs from a calculated parameter to each
    identifier it references. *)
Definition deps (defs : list ParameterDef) (nm : string) : list string :=
  flat_map (fun d => if String.eqb (name d) nm
                     then chain_refs (sourceChain d) else []) defs.

Definition edge (defs : list ParameterDef) (a b : string) : Prop :=
  b ∈ deps defs a.

(** A cycle: a parameter that reaches itself along one or more edges. *)
Definition has_cycle (defs : list ParameterDef) : Prop :=
  exists a, tc (edge defs) a a.

Definition has_unknown_reference (defs : list ParameterDef) : Prop :=
  exists a b, a ∈ names defs /\ edge defs a b /\ b ∉ names defs.

(** A topological order: no parameter twice, and every parameter after all
    the parameters it references. *)
Fixpoint topo_check (defs : list ParameterDef) (seen order : list string)
    : bool :=
  match order with
  | [] => true
  | n :: rest =>
      bool_decide (n ∉ seen)
      && forallb (fun r => bool_decide (r ∈ seen)) (deps defs n)
      && topo_check defs (seen ++ [n]) rest
  end.

Definition topological (defs : list ParameterDef) (order : list string) : Prop :=
  topo_check defs [] order = true /\ forall n, n ∈ names defs -> n ∈ order.

(** Modelled from the spec: the check of [Load] that every formula
    references only parameter names present in the registry; the offending
    parameters with the unknown names they reference. *)
Definition unknown_refs (defs : list ParameterDef) : list (string * string) :=
  flat_map (fun d =>
    map (fun r => (name d, r))
        (filter (fun r => r ∉ names defs) (chain_refs (sourceChain d)))) defs.

Definition ready (defs : list ParameterDef) (placed : list string)
    (n : string) : bool :=
  forallb (fun r => bool_decide (r ∈ placed)) (deps defs n).

(** Modelled from the spec: the cycle detection of [Load], which yields the
    evaluation order of the generation. Place, one at a time, a pending
    parameter all of whose references are placed already; [inl stuck] when
    none can be placed. *)
Fixpoint topo_sort (defs : list ParameterDef) (fuel : nat)
    (pending placed : list string) : list string + list string :=
  match pending with
  | [] => inr placed
  | _ :: _ =>
      match fuel with
      | O => inl pending
      | S fuel' =>
          match find (ready defs placed) pending with
          | Some n =>
              topo_sort defs fuel'
                (filter (fun m => m ≠ n) pending) (placed ++ [n])
          | None => inl pending
          end
      end
  end.

(** Modelled from the spec: the error of a rejected [Load], naming the
    offending parameters. *)
Inductive ConfigurationError : Type :=
| UnknownReference (param ref : string)
| CyclicReference (params : list string).

(** Modelled from the spec: the Parameter Registry, holding the active
    generation with the evaluation order computed for it. *)
Record Registry : Type := mkRegistry {
  generation : list ParameterDef;
  order : list string
}.

(** Modelled from the spec: [Load(defs) error] of section 4.1 (the registry
    is not in the sources). It rejects a generation with an unknown reference
    or a cycle and leaves the active generation as it was; otherwise it swaps
    the new generation in. [None] is the nil error. *)
Definition Load (defs : list ParameterDef) (reg : Registry)
    : option ConfigurationError * Registry :=
  match unknown_refs defs with
  | (p, r) :: _ => (Some (UnknownReference p r), reg)
  | [] =>
      match topo_sort defs (length defs) (names defs) [] with
      | inr o => (None, mkRegistry defs o)
      | inl stuck => (Some (CyclicReference stuck), reg)
      end
  end.

(** *** The chain walked in a tick *)

(** Modelled from the spec: an entry of the Manual Override Store, the
    user-entered value with its enable flag [valueMode]; the Default Table
    holds the factory constants. *)
Record ManualOverride : Type := mkOverride {
  valueMode : ValueMode;
  manualValue : option Q
}.

Abbreviation ManualOverrideStore := (gmap string ManualOverride).
Abbreviation DefaultTable := (gmap string Q).

(** Modelled from the spec: [config.get_source_priority] (not in the
    sources). The chain of a parameter is the chain of its definition, where
    a [ManualSource] is present only when the parameter's [valueMode] is
    MANUAL and carries the user-entered value, and a [DefaultSource] is
    present when a factory default is configured. *)
Definition materialise (store : ManualOverrideStore) (defaults : DefaultTable)
    (nm : string) (s : Source) : list Source :=
  if String.eqb (type s) "manual" then
    match store !! nm with
    | Some ov =>
        match valueMode ov with
        | ValueMANUAL => [ManualSource (manualValue ov)]
        | ValueLIVE => []
        end
    | None => []
    end
  else if String.eqb (type s) "default" then
    match defaults !! nm with
    | Some v => [DefaultSource (Some v)]
    | None => []
    end
  else [s].

(** Modelled from the spec: the chain of a parameter in a tick, its
    definition's entries each read against the Manual Override Store and the
    Default Table. *)
Definition source_chain (store : ManualOverrideStore) (defaults : DefaultTable)
    (d : ParameterDef) : list Source :=
  flat_map (materialise store defaults (name d)) (sourceChain d).

(** Modelled from the spec: the [config] the resolver is called with in a
    tick: the generation, the manual overrides and the defaults. *)
Definition config_of (defs : list ParameterDef) (store : ManualOverrideStore)
    (defaults : DefaultTable) : Config :=
  mkConfig (fun nm =>
    match Get nm defs with
    | Some d => source_chain store defaults d
    | None => []
    end).

(** *** The scheduler *)

(** Modelled from the spec: what a tick reads (section 4.2). *)
Record TickInputs : Type := mkInputs {
  telemetry : TelemetrySnapshot;
  overrides : ManualOverrideStore;
  default_table : DefaultTable;
  registry : Registry
}.

Section scheduler.
Variable math : MathLib.

(** Modelled from the spec: the evaluation pass of section 4.4 (the scheduler
    is not in the sources). Parameters are resolved in the given order, each
    formula reading the results resolved so far in this tick. *)
Fixpoint evaluate_in_order (config : Config) (live_data : LiveData)
    (todo : list string) (resolved : ResolvedSnapshot)
    : outcome ResolvedSnapshot :=
  match todo with
  | [] => Return resolved
  | nm :: rest =>
      r ← resolve_parameter is_valid (compute math resolved) nm config live_data;
      evaluate_in_order config live_data rest (<[nm := r]> resolved)
  end.

(** Modelled from the spec: the evaluation pass of a tick on its inputs, in
    a given order and in the order the registry holds. *)
Definition resolve_tick_in (todo : list string) (inp : TickInputs)
    : outcome ResolvedSnapshot :=
  evaluate_in_order
    (config_of (generation (registry inp)) (overrides inp) (default_table inp))
    (live_data_of (telemetry inp)) todo ∅.

Definition resolve_tick (inp : TickInputs) : outcome ResolvedSnapshot :=
  resolve_tick_in (order (registry inp)) inp.

(** Modelled from the spec: the scheduler between ticks, with the logical
    time of the last tick and the snapshot it published. *)
Record Scheduler : Type := mkScheduler {
  tick_time : nat;
  published : option ResolvedSnapshot
}.

(** Modelled from the spec: one tick of the Resolution Scheduler and the
    Result Publisher (sections 4.4 and 4.5): evaluate, then replace the
    published snapshot; a pass that raises publishes nothing. *)
Definition tick (s : Scheduler) (inp : TickInputs) : Scheduler :=
  match resolve_tick inp with
  | Return snap => mkScheduler (S (tick_time s)) (Some snap)
  | Raise _ => mkScheduler (S (tick_time s)) (published s)
  end.

(** A snapshot is settled on the parameters [seen] when it holds a result
    for exactly these, they reference only one another, and each result is
    what the parameter's chain resolves to against the snapshot itself. *)
Definition settled (defs : list ParameterDef) (config : Config)
    (live_data : LiveData) (seen : list string)
    (resolved : ResolvedSnapshot) : Prop :=
  (forall n, n ∈ seen <-> is_Some (resolved !! n))
  /\ (forall n x, n ∈ seen -> x ∈ deps defs n -> x ∈ seen)
  /\ (forall n r,
        resolved !! n = Some r ->
        resolve_parameter is_valid (compute math resolved) n config live_data
        = Return r).

End scheduler.

(** The chains of a configuration reference what the definitions do. *)
Definition refs_within (defs : list ParameterDef) (config : Config) : Prop :=
  forall nm x,
    x ∈ chain_refs (get_source_priority config nm) -> x ∈ deps defs nm.

(** Rational stand-ins for the transcendental functions, for running
    examples: a truncated series for [exp], a Pade step for [ln], integer
    powers only. *)
Definition approx_math : MathLib :=
  mkMath
    (fun x => (2 * (x - 1) / (x + 1))%Q)
    (fun x => (1 + x + x * x / 2)%Q)
    (fun x y =>
       if Qeq_bool y (inject_Z (Qnum y / Zpos (Qden y)))
       then if Qeq_bool x 0 && negb (Qle_bool 0 y) then None
            else Some (Qpower x (Qnum y / Zpos (Qden y)))
       else None).

End Engine.

(** ** The Modbus mapping page: the calibration dialog *)

Module ModbusMapping.

(** A JavaScript number, up to rounding. *)
Inductive number : Type :=
| NaN
| PosInfinity
| NegInfinity
| Finite (q : Q).

(** [Number.isFinite] *)
Definition isFinite (n : number) : bool :=
  match n with
  | Finite _ => true
  | _ => false
  end.

Inductive RegType := Analog | Discrete.

Inductive LiveValue : Type :=
| LiveNumber (n : number)
| LiveString (s : string).

(** [interface RegisterMapping]: an optional or nullable field is an
    [option], [None] standing for both [undefined] and [null]. *)
Record RegisterMapping : Type := mkRegister {
  address : number;
  name : string;
  description : string;
  bit : option number;
  unit : string;
  scale : number;
  offset : number;
  dataType : string;
  category : string;
  pollGroup : string;
  type : option RegType;
  min : option number;
  max : option number;
  nominal : option number;
  default : option number;
  liveValue : option LiveValue;
  valueMode : option ValueMode;
  manualValue : option number;
  sourcePriority : option (string + list string);
  calcFormula : option string;
  interstage_dp : option number;
  cooler_approach_f : option number;
  speed_ratio : option number
}.

(** [interface CalibrationDialogState] *)
Record CalibrationDialogState : Type := mkDraft {
  draft_unit : string;
  draft_min : string;
  draft_max : string;
  draft_scale : string;
  draft_offset : string;
  draft_valueMode : ValueMode;
  draft_manualValue : string
}.

(** The state of the page the dialog works on. *)
Record PageState : Type := mkPage {
  registers : list RegisterMapping;
  calibrationIndex : option nat;
  calibrationDraft : CalibrationDialogState
}.

(** [String.prototype.trim], on the ASCII white space and line
    terminators. *)
Definition is_space (c : ascii) : bool :=
  let n := nat_of_ascii c in
  ((9 <=? n)%nat && (n <=? 13)%nat) || (n =? 32)%nat.

Fixpoint trim_start (s : string) : string :=
  match s with
  | EmptyString => EmptyString
  | String c rest => if is_space c then trim_start rest else s
  end.

Fixpoint trim_end (s : string) : string :=
  match s with
  | EmptyString => EmptyString
  | String c rest =>
      match trim_end rest with
      | EmptyString => if is_space c then EmptyString else String c EmptyString
      | rest' => String c rest'
      end
  end.

Definition trim (s : string) : string := trim_end (trim_start s).

Section dialog.
(** The [Number(...)] conversion of a string. *)
Variable Number : string -> number.

Definition calibrated (draft : CalibrationDialogState)
    (current : RegisterMapping) : RegisterMapping :=
  let regType := match type current with Some t => t | None => Analog end in
  {| address := address current;
     name := name current;
     description := description current;
     bit := bit current;
     unit := if String.eqb (draft_unit draft) "none" then ""
             else draft_unit draft;
     scale := if isFinite (Number (draft_scale draft))
              then Number (draft_scale draft) else Finite 1;
     offset := if isFinite (Number (draft_offset draft))
               then Number (draft_offset draft) else Finite 0;
     dataType := dataType current;
     category := category current;
     pollGroup := pollGroup current;
     type := type current;
     min := match regType with
            | Analog => if String.eqb (trim (draft_min draft)) "" then None
                        else Some (Number (draft_min draft))
            | Discrete => min current
            end;
     max := match regType with
            | Analog => if String.eqb (trim (draft_max draft)) "" then None
                        else Some (Number (draft_max draft))
            | Discrete => max current
            end;
     nominal := nominal current;
     default := default current;
     liveValue := liveValue current;
     valueMode := Some (draft_valueMode draft);
     manualValue :=
       match draft_valueMode draft with
       | ValueMANUAL =>
           if String.eqb (trim (draft_manualValue draft)) "" then None
           else Some (Number (draft_manualValue draft))
       | ValueLIVE => None
       end;
     sourcePriority := sourcePriority current;
     calcFormula := calcFormula current;
     interstage_dp := interstage_dp current;
     cooler_approach_f := cooler_approach_f current;
     speed_ratio := speed_ratio current |}.

(** [applyCalibrationDialog]: nothing happens without an open dialog; an
    index with no register leaves the registers as they were; the dialog is
    closed afterwards. *)
Definition applyCalibrationDialog (st : PageState) : PageState :=
  match calibrationIndex st with
  | None => st
  | Some i =>
      let next :=
        match registers st !! i with
        | None => registers st
        | Some current =>
            <[i := calibrated (calibrationDraft st) current]> (registers st)
        end in
      mkPage next None (calibrationDraft st)
  end.

End dialog.

(** The invariant of a register: a manual value only in MANUAL mode. *)
Definition manual_only_in_manual_mode (r : RegisterMapping) : Prop :=
  manualValue r <> None -> valueMode r = Some ValueMANUAL.

(** [Number] on plain decimal digits (the empty string converts to 0),
    for running examples. *)
Fixpoint digits_value (s : string) (acc : N) : option N :=
  match s with
  | EmptyString => Some acc
  | String c rest =>
      let n := N_of_ascii c in
      if ((48 <=? n) && (n <=? 57))%N
      then digits_value rest (acc * 10 + (n - 48))%N
      else None
  end.

Definition Number_of_digits (s : string) : number :=
  match digits_value (trim s) 0%N with
  | Some n => Finite (inject_Z (Z.of_N n))
  | None => NaN
  end.

Section opening.
(** The [String(...)] conversion of a number. *)
Variable StringOf : number -> string.

(** [v === null || v === undefined ? fallback : String(v)] *)
Definition field_text (v : option number) (fallback : string) : string :=
  match v with
  | Some n => StringOf n
  | None => fallback
  end.

(** The draft [openCalibrationDialog] fills in from the register. *)
Definition draft_of (reg : RegisterMapping) : CalibrationDialogState :=
  {| draft_unit := if String.eqb (unit reg) "" then "none" else unit reg;
     draft_min := field_text (min reg) "";
     draft_max := field_text (max reg) "";
     draft_scale := field_text (Some (scale reg)) "1";
     draft_offset := field_text (Some (offset reg)) "0";
     draft_valueMode := match valueMode reg with
                        | Some ValueMANUAL => ValueMANUAL
                        | _ => ValueLIVE
                        end;
     draft_manualValue := field_text (manualValue reg) "" |}.

(** [openCalibrationDialog]: an index with no register changes nothing. *)
Definition openCalibrationDialog (st : PageState) (index : nat) : PageState :=
  match registers st !! index with
  | None => st
  | Some reg => mkPage (registers st) (Some index) (draft_of reg)
  end.

End opening.

(** [String] on the natural numbers, for running examples; the other
    numbers print as NaN there. *)
Definition StringOf_natural (n : number) : string :=
  match n with
  | Finite (Qmake (Zpos p) 1) => NilEmpty.string_of_uint (Pos.to_uint p)
  | Finite (Qmake Z0 1) => "0"
  | _ => "NaN"
  end.

End ModbusMapping.

(** ** The dashboard: quality badges *)

Module Dashboard.

(** [LiveDataResponse], with its named fields; [sources] is used as a map
    from parameter name to tag. *)
Record LiveDataResponse : Type := mkLive {
  unit_id : string;
  timestamp : string;
  sources : option (gmap string string)
}.

Definition sourceAliases : gmap string (list string) :=
  list_to_map
    [ ("engine_oil_press", ["engine_oil_press"; "engine_oil_pressure"]);
      ("comp_oil_press", ["comp_oil_press"; "comp_oil_pressure"]) ].

(** The names an object literal inherits from [Object.prototype]: under
    each of them [sourceAliases[param]] finds a function (for [__proto__]
    the prototype object), a truthy value that cannot be iterated. *)
Definition inherited_names : list string :=
  [ "constructor"; "hasOwnProperty"; "isPrototypeOf"; "propertyIsEnumerable";
    "toLocaleString"; "toString"; "valueOf"; "__proto__"; "__defineGetter__";
    "__defineSetter__"; "__lookupGetter__"; "__lookupSetter__" ].

Definition inherited (param : string) : bool :=
  existsb (String.eqb param) inherited_names.

(** [sourceAliases[param] || [param]]: the alias list of an own property of
    the literal, the parameter alone when the lookup finds nothing, and
    [None] when it finds an inherited value, which is no list of keys. *)
Definition alias_keys (param : string) : option (list string) :=
  match sourceAliases !! param with
  | Some keys => Some keys
  | None => if inherited param then None else Some [param]
  end.

Definition TypeError : exn := OtherException "TypeError".

(** A string is truthy unless it is empty. *)
Definition truthy (s : string) : bool := negb (String.eqb s "").

(** The loop [for (const key of keys) if (sources[key]) return sources[key]] *)
Fixpoint first_source (srcs : gmap string string) (keys : list string)
    : option string :=
  match keys with
  | [] => None
  | key :: rest =>
      match srcs !! key with
      | Some q => if truthy q then Some q else first_source srcs rest
      | None => first_source srcs rest
      end
  end.

(** [getQuality]: [for (const key of keys)] throws a TypeError on a value
    that cannot be iterated. The keys that are looked up in [sources] are
    never inherited names, so the lookup there is one of own entries. *)
Definition getQuality (liveData : LiveDataResponse) (param : string)
    : outcome string :=
  let srcs := match sources liveData with Some m => m | None => ∅ end in
  match alias_keys param with
  | Some keys =>
      match first_source srcs keys with
      | Some q => Return q
      | None => Return "LIVE"
      end
  | None => Raise TypeError
  end.

End Dashboard.

(** ** Running scenarios *)

Module Scenario.
Import Resolver Engine.

(** The plan's example parameter: live register, then a formula on the
    upstream discharge temperature, then the manual value 80, then the
    default 75. *)
Definition suction_chain : list Source :=
  [ LiveSource "reg1" (0, 200)%Q;
    CalculatedSource (FBin OpSub (FIdent "DischargeTempUp") (FNum 15));
    ManualSource (Some 80%Q);
    DefaultSource (Some 75%Q) ].

Definition suction_config : Config :=
  mkConfig (fun nm => if String.eqb nm "SuctionTemp1" then suction_chain
                      else []).

Definition fresh_reading : LiveData := {[ "reg1" := 82.3%Q ]}.

(** [A] read live with a default behind it, [B = A * 2]. *)
Definition dependent_defs : list ParameterDef :=
  [ mkDef "B" "degF" [CalculatedSource (FBin OpMul (FIdent "A") (FNum 2))];
    mkDef "A" "degF" [LiveSource "reg1" (0, 200)%Q; DefaultSource None] ].

(** The rejected generation [A = B + 1], [B = A * 2]. *)
Definition cyclic_defs : list ParameterDef :=
  [ mkDef "A" "" [CalculatedSource (FBin OpAdd (FIdent "B") (FNum 1))];
    mkDef "B" "" [CalculatedSource (FBin OpMul (FIdent "A") (FNum 2))] ].

(** Two independent live parameters and their sum. *)
Definition sum_defs : list ParameterDef :=
  [ mkDef "P1" "PSIG" [LiveSource "reg1" (0, 2000)%Q; DefaultSource None];
    mkDef "P2" "PSIG" [LiveSource "reg2" (0, 2000)%Q; DefaultSource None];
    mkDef "Sum" "PSIG"
      [CalculatedSource (FBin OpAdd (FIdent "P1") (FIdent "P2"))] ].

Definition empty_registry : Registry := mkRegistry [] [].

(** A tick in which [reg1] was last sampled long ago and reads out of
    range, with the factory default 10 for [A]. *)
Definition dependent_inputs : TickInputs :=
  mkInputs {[ "reg1" := mkSample 9999 0 ]} ∅ {[ "A" := 10%Q ]}
    (mkRegistry dependent_defs ["A"; "B"]).

Definition sum_inputs : TickInputs :=
  mkInputs {[ "reg1" := mkSample 100 7; "reg2" := mkSample 250 7 ]} ∅ ∅
    (mkRegistry sum_defs ["P1"; "P2"; "Sum"]).

(** A page with the dialog open on its second register. *)
Definition plain_register (nm : string) (mode : ValueMode)
    (manual : option ModbusMapping.number) : ModbusMapping.RegisterMapping :=
  ModbusMapping.mkRegister (ModbusMapping.Finite 40090) nm "" None "PSIG"
    (ModbusMapping.Finite 1) (ModbusMapping.Finite 0) "uint16" "general" "A"
    (Some ModbusMapping.Analog) None None None None None (Some mode) manual
    None None None None None.

Definition open_dialog : ModbusMapping.PageState :=
  ModbusMapping.mkPage
    [ plain_register "suction_press" ValueLIVE None;
      plain_register "discharge_press" ValueMANUAL
        (Some (ModbusMapping.Finite 12)) ]
    (Some 1%nat)
    (ModbusMapping.mkDraft "PSIG" "0" "1000" "1" "0" ValueLIVE "42").

Definition partial_sources : Dashboard.LiveDataResponse :=
  Dashboard.mkLive "GCS-001" "2026-01-01T00:00:00Z"
    (Some {[ "engine_rpm" := "BAD" ]}).

End Scenario.

(** ** The dashboard: health score and risk list *)

Module Health.

Abbreviation number := ModbusMapping.number.
Abbreviation NaN := ModbusMapping.NaN.
Abbreviation Finite := ModbusMapping.Finite.
Abbreviation PosInfinity := ModbusMapping.PosInfinity.
Abbreviation NegInfinity := ModbusMapping.NegInfinity.

(** A JavaScript value as the live payload holds them ([liveData: any]). *)
#[local] Unset Elimination Schemes.
Inductive any : Type :=
| Undefined
| Null
| Bool (b : bool)
| Num (n : number)
| Str (s : string)
| Arr (items : list any)
| Obj (fields : list (string * any)).
#[local] Set Elimination Schemes.

(** [value?.key]: the field of an object, [undefined] when there is none or
    when the value is no object. *)
Definition get (v : any) (key : string) : any :=
  match v with
  | Obj fields =>
      match find (fun kv => String.eqb (fst kv) key) fields with
      | Some kv => snd kv
      | None => Undefined
      end
  | _ => Undefined
  end.

Definition truthy (v : any) : bool :=
  match v with
  | Undefined | Null => false
  | Bool b => b
  | Num (ModbusMapping.Finite q) => negb (Qeq_bool q 0)
  | Num ModbusMapping.NaN => false
  | Num _ => true
  | Str s => negb (String.eqb s "")
  | Arr _ | Obj _ => true
  end.

(** [a < b] on numbers: false as soon as one side is NaN. *)
Definition lt (a b : number) : bool :=
  match a, b with
  | ModbusMapping.NaN, _ | _, ModbusMapping.NaN => false
  | ModbusMapping.Finite x, ModbusMapping.Finite y => negb (Qle_bool y x)
  | ModbusMapping.NegInfinity, ModbusMapping.NegInfinity => false
  | ModbusMapping.NegInfinity, _ => true
  | ModbusMapping.PosInfinity, _ => false
  | ModbusMapping.Finite _, ModbusMapping.PosInfinity => true
  | ModbusMapping.Finite _, ModbusMapping.NegInfinity => false
  end.

Definition gt (a b : number) : bool := lt b a.

(** [clamp]: [Math.max(min, Math.min(max, value))]. *)
Definition clamp (value min max : Q) : Q :=
  Engine.Qmax' min (Engine.Qmin' max value).

(** [Math.round] of a finite number: the nearest integer, halves up. *)
Definition round (x : Q) : Q := inject_Z (Qfloor (x + (1 # 2))).

(** [healthTone]'s result. *)
Record Tone : Type := mkTone {
  ring : string;
  text : string;
  label : string;
  badge : string
}.

Definition healthTone (score : Q) : Tone :=
  if Qle_bool 85 score then
    mkTone "#10b981" "text-emerald-300" "Healthy"
      "bg-emerald-500/20 text-emerald-200 border-emerald-400/35"
  else if Qle_bool 65 score then
    mkTone "#f59e0b" "text-amber-300" "Watch"
      "bg-amber-500/20 text-amber-200 border-amber-400/35"
  else
    mkTone "#ef4444" "text-rose-300" "Critical"
      "bg-rose-500/20 text-rose-200 border-rose-400/35".

Section score.
(** The conversions and the clock of the host. *)
Variable Number : string -> number.
Variable ObjectToNumber : any -> number.
Variable StringOf : any -> string.
Variable toUpperCase : string -> string.
(** [Date.now()], and [new Date(v).getTime()] with [None] for NaN. *)
Variable now : Q.
Variable getTime : any -> option Q.

(** [Number(value)], where it returns: on an array or an object the host
    may throw instead, which [Throwing.ToNumber] has. *)
Definition ToNumber (v : any) : number :=
  match v with
  | Undefined => ModbusMapping.NaN
  | Null => ModbusMapping.Finite 0
  | Bool b => ModbusMapping.Finite (if b then 1 else 0)
  | Num n => n
  | Str s => Number s
  | Arr _ | Obj _ => ObjectToNumber v
  end.

(** [String(value)], where it returns (see [Throwing.ToString]). *)
Definition ToString (v : any) : string :=
  match v with
  | Str s => s
  | _ => StringOf v
  end.

Definition asNumber (value : any) (fallback : number) : number :=
  let n := ToNumber value in
  if ModbusMapping.isFinite n then n else fallback.

(** [String(liveData?.engine_state_label || 'UNKNOWN').toUpperCase()] *)
Definition state_of (liveData : any) : string :=
  let lbl := get liveData "engine_state_label" in
  toUpperCase (ToString (if truthy lbl then lbl else Str "UNKNOWN")).

(** [Array.isArray(liveData?.active_alarms) ? liveData.active_alarms.length : 0] *)
Definition alarmCount_of (liveData : any) : nat :=
  match get liveData "active_alarms" with
  | Arr items => length items
  | _ => 0%nat
  end.

(** The age of the payload in seconds, [None] for NaN. *)
Definition age_of (ts : any) : option Q :=
  match getTime ts with
  | Some t => Some ((now - t) / 1000)%Q
  | None => None
  end.

(** [computeHealthScore]. Every operand of the score is a finite number, so
    its arithmetic is that of the rationals. *)
Definition computeHealthScore (liveData : any) : Q :=
  let score := 100%Q in
  let eop := asNumber (get liveData "engine_oil_press") (ModbusMapping.Finite 0) in
  let score :=
    if lt eop (ModbusMapping.Finite 35) then (score - 18)%Q
    else if lt eop (ModbusMapping.Finite 45) then (score - 8)%Q
    else score in
  let eot := asNumber (get liveData "engine_oil_temp") (ModbusMapping.Finite 0) in
  let score :=
    if gt eot (ModbusMapping.Finite 225) then (score - 16)%Q
    else if gt eot (ModbusMapping.Finite 205) then (score - 8)%Q
    else score in
  let jwt := asNumber (get liveData "jacket_water_temp") (ModbusMapping.Finite 0) in
  let score :=
    if gt jwt (ModbusMapping.Finite 205) then (score - 14)%Q
    else if gt jwt (ModbusMapping.Finite 190) then (score - 6)%Q
    else score in
  let exhaustSpread :=
    asNumber (get liveData "exhaust_spread") (ModbusMapping.Finite 0) in
  let score :=
    if gt exhaustSpread (ModbusMapping.Finite 90) then (score - 16)%Q
    else if gt exhaustSpread (ModbusMapping.Finite 65) then (score - 8)%Q
    else score in
  let state := state_of liveData in
  let score :=
    if String.eqb state "FAULT" || String.eqb state "UNKNOWN"
    then (score - 24)%Q
    else if String.eqb state "STOPPED" then (score - 10)%Q
    else score in
  let alarmCount := alarmCount_of liveData in
  let score :=
    (score - Engine.Qmin' 24 (inject_Z (Z.of_nat alarmCount) * 8))%Q in
  let score :=
    if truthy (get liveData "timestamp") then
      match age_of (get liveData "timestamp") with
      | Some age =>
          if negb (Qle_bool age 20) then (score - 12)%Q
          else if negb (Qle_bool age 8) then (score - 6)%Q
          else score
      | None => score
      end
    else score in
  clamp (round score) 0 100.

(** The risk list of the dashboard, which is built once the payload is
    there ([if (!liveData) return null] comes first); [asNumber]'s fallback
    is its default, 0. *)
Definition riskItems (liveData : any) : list string :=
  let items := [] in
  let items :=
    if lt (asNumber (get liveData "engine_oil_press") (ModbusMapping.Finite 0))
          (ModbusMapping.Finite 40)
    then items ++ ["Engine oil pressure below preferred operating band"]
    else items in
  let items :=
    if gt (asNumber (get liveData "engine_oil_temp") (ModbusMapping.Finite 0))
          (ModbusMapping.Finite 205)
    then items ++ ["Engine oil temperature elevated"]
    else items in
  let items :=
    if gt (asNumber (get liveData "jacket_water_temp") (ModbusMapping.Finite 0))
          (ModbusMapping.Finite 195)
    then items ++ ["Jacket water temperature trending high"]
    else items in
  let items :=
    if gt (asNumber (get liveData "exhaust_spread") (ModbusMapping.Finite 0))
          (ModbusMapping.Finite 70)
    then items ++ ["Exhaust spread indicates uneven cylinder load"]
    else items in
  if (length items =? 0)%nat
  then items ++ ["No immediate risk signatures from current live envelope"]
  else items.

(** What each step of [computeHealthScore] takes off the score. *)
Definition oil_pressure_penalty (liveData : any) : Z :=
  let eop := asNumber (get liveData "engine_oil_press") (ModbusMapping.Finite 0) in
  if lt eop (ModbusMapping.Finite 35) then 18
  else if lt eop (ModbusMapping.Finite 45) then 8 else 0.

Definition oil_temp_penalty (liveData : any) : Z :=
  let eot := asNumber (get liveData "engine_oil_temp") (ModbusMapping.Finite 0) in
  if gt eot (ModbusMapping.Finite 225) then 16
  else if gt eot (ModbusMapping.Finite 205) then 8 else 0.

Definition jacket_water_penalty (liveData : any) : Z :=
  let jwt := asNumber (get liveData "jacket_water_temp") (ModbusMapping.Finite 0) in
  if gt jwt (ModbusMapping.Finite 205) then 14
  else if gt jwt (ModbusMapping.Finite 190) then 6 else 0.

Definition exhaust_penalty (liveData : any) : Z :=
  let spread := asNumber (get liveData "exhaust_spread") (ModbusMapping.Finite 0) in
  if gt spread (ModbusMapping.Finite 90) then 16
  else if gt spread (ModbusMapping.Finite 65) then 8 else 0.

Definition state_penalty (liveData : any) : Z :=
  let state := state_of liveData in
  if String.eqb state "FAULT" || String.eqb state "UNKNOWN" then 24
  else if String.eqb state "STOPPED" then 10 else 0.

Definition alarm_penalty (liveData : any) : Z :=
  Z.min 24 (Z.of_nat (alarmCount_of liveData) * 8).

Definition age_penalty (liveData : any) : Z :=
  if truthy (get liveData "timestamp") then
    match age_of (get liveData "timestamp") with
    | Some age =>
        if negb (Qle_bool age 20) then 12
        else if negb (Qle_bool age 8) then 6 else 0
    | None => 0
    end
  else 0.

Definition total_penalty (liveData : any) : Z :=
  oil_pressure_penalty liveData + oil_temp_penalty liveData
  + jacket_water_penalty liveData + exhaust_penalty liveData
  + state_penalty liveData + alarm_penalty liveData + age_penalty liveData.

End score.

(** Upper-casing of the ASCII letters, for running examples. *)
Definition upper_ascii (c : ascii) : ascii :=
  let n := nat_of_ascii c in
  if ((97 <=? n) && (n <=? 122))%nat then ascii_of_nat (n - 32) else c.

Fixpoint toUpperCase_ascii (s : string) : string :=
  match s with
  | EmptyString => EmptyString
  | String c rest => String (upper_ascii c) (toUpperCase_ascii rest)
  end.

End Health.

(** ** The health score with the conversions that throw *)

Module Throwing.
Import Health.

(** The value of a conversion that returned. *)
Definition returned {A : Type} (fallback : A) (o : outcome A) : A :=
  match o with
  | Return a => a
  | Raise _ => fallback
  end.

Section host.
(** [Number(v)], [String(v)] and [new Date(v)] first turn an array or an
    object into a primitive, and throw a TypeError when it has none (an
    object whose own [toString] is no function, say): the conversions of
    the host are outcomes here. *)
Variable Number : string -> number.
Variable ObjectToNumber : any -> outcome number.
Variable StringOf : any -> outcome string.
Variable toUpperCase : string -> string.
Variable now : Q.
Variable getTime : any -> outcome (option Q).

(** [Number(value)] *)
Definition ToNumber (v : any) : outcome number :=
  match v with
  | Undefined => Return ModbusMapping.NaN
  | Null => Return (ModbusMapping.Finite 0)
  | Bool b => Return (ModbusMapping.Finite (if b then 1 else 0))
  | Num n => Return n
  | Str s => Return (Number s)
  | Arr _ | Obj _ => ObjectToNumber v
  end.

(** [String(value)] *)
Definition ToString (v : any) : outcome string :=
  match v with
  | Str s => Return s
  | _ => StringOf v
  end.

Definition asNumber (value : any) (fallback : number) : outcome number :=
  n ← ToNumber value;
  Return (if ModbusMapping.isFinite n then n else fallback).

(** The value [String(...)] is applied to for the state. *)
Definition state_label (liveData : any) : any :=
  let lbl := get liveData "engine_state_label" in
  if truthy lbl then lbl else Str "UNKNOWN".

Definition state_of (liveData : any) : outcome string :=
  s ← ToString (state_label liveData);
  Return (toUpperCase s).

Definition age_of (ts : any) : outcome (option Q) :=
  t ← getTime ts;
  Return (match t with
          | Some t => Some ((now - t) / 1000)%Q
          | None => None
          end).

(** [computeHealthScore], statement by statement. *)
Definition computeHealthScore (liveData : any) : outcome Q :=
  let score := 100%Q in
  eop ← asNumber (get liveData "engine_oil_press") (ModbusMapping.Finite 0);
  let score :=
    if lt eop (ModbusMapping.Finite 35) then (score - 18)%Q
    else if lt eop (ModbusMapping.Finite 45) then (score - 8)%Q
    else score in
  eot ← asNumber (get liveData "engine_oil_temp") (ModbusMapping.Finite 0);
  let score :=
    if gt eot (ModbusMapping.Finite 225) then (score - 16)%Q
    else if gt eot (ModbusMapping.Finite 205) then (score - 8)%Q
    else score in
  jwt ← asNumber (get liveData "jacket_water_temp") (ModbusMapping.Finite 0);
  let score :=
    if gt jwt (ModbusMapping.Finite 205) then (score - 14)%Q
    else if gt jwt (ModbusMapping.Finite 190) then (score - 6)%Q
    else score in
  exhaustSpread ←
    asNumber (get liveData "exhaust_spread") (ModbusMapping.Finite 0);
  let score :=
    if gt exhaustSpread (ModbusMapping.Finite 90) then (score - 16)%Q
    else if gt exhaustSpread (ModbusMapping.Finite 65) then (score - 8)%Q
    else score in
  state ← state_of liveData;
  let score :=
    if String.eqb state "FAULT" || String.eqb state "UNKNOWN"
    then (score - 24)%Q
    else if String.eqb state "STOPPED" then (score - 10)%Q
    else score in
  let alarmCount := alarmCount_of liveData in
  let score :=
    (score - Engine.Qmin' 24 (inject_Z (Z.of_nat alarmCount) * 8))%Q in
  score ←
    (if truthy (get liveData "timestamp") then
       age ← age_of (get liveData "timestamp");
       Return (match age with
               | Some age =>
                   if negb (Qle_bool age 20) then (score - 12)%Q
                   else if negb (Qle_bool age 8) then (score - 6)%Q
                   else score
               | None => score
               end)
     else Return score);
  Return (clamp (round score) 0 100).

(** The conversions [computeHealthScore] runs on the payload, in their
    order, each with what it is applied to. *)
Definition conversion_raises (liveData : any) (e : exn) : Prop :=
  (exists key,
     key ∈ ["engine_oil_press"; "engine_oil_temp"; "jacket_water_temp";
            "exhaust_spread"]
     /\ ToNumber (get liveData key) = Raise e)
  \/ ToString (state_label liveData) = Raise e
  \/ (truthy (get liveData "timestamp") = true
      /\ getTime (get liveData "timestamp") = Raise e).

End host.

End Throwing.

(** ** The API client: the stored token and the request headers *)

Module Auth.
Import Health.

(** [localStorage]: [getItem] is the lookup ([null] for a missing key),
    [setItem] the insertion, [removeItem] the deletion. *)
Abbreviation Storage := (gmap string string).

(** [a ?? b] *)
Definition nullish (a b : any) : any :=
  match a with
  | Undefined | Null => b
  | _ => a
  end.

Section client.
(** [JSON.parse], [None] when it throws; [String(...)] of a value that is
    no string. *)
Variable JSONparse : string -> option any.
Variable StringOf : any -> string.

Definition readInitialAuthToken (storage : Storage) : any :=
  let persisted :=
    match storage !! "gcs-auth-storage" with
    | Some persistedState =>
        if String.eqb persistedState "" then Null
        else
          match JSONparse persistedState with
          | Some parsed => nullish (get (get parsed "state") "token") Null
          | None => Null
          end
    | None => Null
    end in
  match storage !! "auth_token" with
  | Some directToken =>
      if String.eqb directToken "" then persisted else Str directToken
  | None => persisted
  end.

Definition setAuthToken (token : option string) (storage : Storage)
    : Storage :=
  match token with
  | Some t =>
      if String.eqb t "" then delete "auth_token" storage
      else <["auth_token" := t]> storage
  | None => delete "auth_token" storage
  end.

Definition getAuthToken (storage : Storage) : any :=
  readInitialAuthToken storage.

(** The headers object, as a map from header name to value. *)
Definition authHeaders (storage : Storage) : gmap string string :=
  let headers : gmap string string :=
    {[ "Content-Type" := "application/json" ]} in
  let token := getAuthToken storage in
  if truthy token
  then <["Authorization" := "Bearer " +:+ ToString StringOf token]> headers
  else headers.

Definition logout (storage : Storage) : Storage :=
  setAuthToken None storage.

End client.

End Auth.

(** ** Further running cases *)

Module Cases.
Import Resolver Engine.

(** An evaluator that lets the host's division error escape: it fails as
    the evaluator above, except that dividing by the literal 0 raises
    [ZeroDivisionError]. *)
Definition leaky_compute (f : Formula) (live_data : LiveData)
    (config : Config) : outcome Q :=
  match f with
  | FBin OpDiv _ (FNum (Qmake Z0 _)) =>
      Raise (OtherException "ZeroDivisionError")
  | _ => compute approx_math ∅ f live_data config
  end.

(** A chain with a mistyped entry in front of a live one. *)
Definition mistyped_chain : list Source :=
  [ mkSource "Modbus" "reg1" (0, 200)%Q (FNum 0) None;
    LiveSource "reg2" (0, 200)%Q;
    DefaultSource (Some 75%Q) ].

Definition division_chain : list Source :=
  [ LiveSource "reg1" (0, 200)%Q;
    CalculatedSource (FBin OpDiv (FNum 1) (FNum 0));
    DefaultSource (Some 75%Q) ].

Definition two_registers : LiveData := {[ "reg1" := 10%Q; "reg2" := 20%Q ]}.

(** The host functions for running the dashboard's score on payloads whose
    timestamp is given in epoch milliseconds. *)
Definition StringOf_example (v : Health.any) : string :=
  match v with
  | Health.Undefined => "undefined"
  | Health.Null => "null"
  | Health.Bool true => "true"
  | Health.Bool false => "false"
  | _ => "[object Object]"
  end.

Definition getTime_example (v : Health.any) : option Q :=
  match v with
  | Health.Num (ModbusMapping.Finite t) => Some t
  | _ => None
  end.

Definition score_example (liveData : Health.any) : Q :=
  Health.computeHealthScore ModbusMapping.Number_of_digits
    (fun _ => ModbusMapping.NaN) StringOf_example Health.toUpperCase_ascii
    1000000 getTime_example liveData.

Definition finite (z : Z) : Health.any :=
  Health.Num (ModbusMapping.Finite (inject_Z z)).

(** A package running well, sampled two seconds ago. *)
Definition sound_payload : Health.any :=
  Health.Obj
    [ ("engine_oil_press", finite 60); ("engine_oil_temp", finite 180);
      ("jacket_water_temp", finite 175); ("exhaust_spread", finite 30);
      ("engine_state_label", Health.Str "running");
      ("active_alarms", Health.Arr []); ("timestamp", finite 998000) ].

(** The same package with its state label missing. *)
Definition unlabelled_payload : Health.any :=
  Health.Obj
    [ ("engine_oil_press", finite 60); ("engine_oil_temp", finite 180);
      ("jacket_water_temp", finite 175); ("exhaust_spread", finite 30);
      ("active_alarms", Health.Arr []); ("timestamp", finite 998000) ].

(** The same package with no oil pressure reading. *)
Definition no_pressure_payload : Health.any :=
  Health.Obj
    [ ("engine_oil_temp", finite 180);
      ("jacket_water_temp", finite 175); ("exhaust_spread", finite 30);
      ("engine_state_label", Health.Str "running");
      ("active_alarms", Health.Arr []); ("timestamp", finite 998000) ].

Definition alarms_payload (n : nat) : Health.any :=
  Health.Obj
    [ ("engine_oil_press", finite 60); ("engine_oil_temp", finite 180);
      ("jacket_water_temp", finite 175); ("exhaust_spread", finite 30);
      ("engine_state_label", Health.Str "running");
      ("active_alarms", Health.Arr (replicate n Health.Null));
      ("timestamp", finite 998000) ].

(** The conversions of the host on the payloads of the running cases: an
    object with an own [toString] field has no primitive value. *)
Definition unconvertible (v : Health.any) : bool :=
  match v with
  | Health.Obj fields =>
      existsb (fun kv => String.eqb (fst kv) "toString") fields
  | _ => false
  end.

Definition ObjectToNumber_example (v : Health.any)
    : outcome ModbusMapping.number :=
  if unconvertible v then Raise Dashboard.TypeError
  else Return ModbusMapping.NaN.

Definition StringOf_or_throw (v : Health.any) : outcome string :=
  if unconvertible v then Raise Dashboard.TypeError
  else Return (StringOf_example v).

Definition getTime_or_throw (v : Health.any) : outcome (option Q) :=
  if unconvertible v then Raise Dashboard.TypeError
  else Return (getTime_example v).

(** A payload whose oil pressure is the object [{toString: 1}]. *)
Definition unconvertible_payload : Health.any :=
  Health.Obj
    [ ("engine_oil_press", Health.Obj [ ("toString", finite 1) ]);
      ("engine_oil_temp", finite 180);
      ("jacket_water_temp", finite 175); ("exhaust_spread", finite 30);
      ("engine_state_label", Health.Str "running");
      ("active_alarms", Health.Arr []); ("timestamp", finite 998000) ].

(** A snapshot tagged under the alias of the engine oil pressure only, with
    an empty tag under the parameter's own name. *)
Definition aliased_sources : Dashboard.LiveDataResponse :=
  Dashboard.mkLive "GCS-001" "2026-01-01T00:00:00Z"
    (Some {[ "engine_oil_press" := ""; "engine_oil_pressure" := "MANUAL" ]}).

(** A register in MANUAL mode with limits, as the dialog finds it. *)
Definition limited_register : ModbusMapping.RegisterMapping :=
  ModbusMapping.mkRegister (ModbusMapping.Finite 40091) "discharge_press" ""
    None "PSIG" (ModbusMapping.Finite 1) (ModbusMapping.Finite 0) "uint16"
    "general" "A" (Some ModbusMapping.Analog)
    (Some (ModbusMapping.Finite 0)) (Some (ModbusMapping.Finite 1500)) None
    None None (Some ValueMANUAL) (Some (ModbusMapping.Finite 640))
    None None None None None.

Definition limited_page : ModbusMapping.PageState :=
  ModbusMapping.mkPage
    [ Scenario.plain_register "suction_press" ValueLIVE None;
      limited_register ]
    None
    (ModbusMapping.mkDraft "none" "" "" "1" "0" ValueLIVE "").

(** A browser store in which another store module persisted its state, and
    the parse of that state. *)
Definition persisted_store : Auth.Storage :=
  {[ "auth_token" := "tok-1"; "gcs-auth-storage" := "persisted" ]}.

Definition JSONparse_example (text : string) : option Health.any :=
  if String.eqb text "persisted"
  then Some (Health.Obj
               [ ("state", Health.Obj [ ("token", Health.Str "tok-2") ]);
                 ("version", finite 0) ])
  else None.

End Cases.

(** * Properties of the resolver *)

Section resolver_facts.
Import Resolver.
Variable is_valid : Q -> Range -> bool.
Variable compute : Formula -> LiveData -> Config -> outcome Q.
Variable config : Config.
Variable live_data : LiveData.

Local Abbreviation try_entry :=
  (fun s => try_source is_valid compute s config live_data).
Local Abbreviation resolve :=
  (fun l => resolve_sources is_valid compute l config live_data).
Local Abbreviation fails :=
  (entry_fails is_valid compute config live_data).

Lemma resolve_cons_fail s rest :
  fails s -> resolve (s :: rest) = resolve rest.
Proof. unfold entry_fails. cbn. by intros ->. Qed.

Lemma resolve_cons_done s rest o :
  try_entry s = Some o -> resolve (s :: rest) = o.
Proof. cbn. by intros ->. Qed.

Lemma resolve_skip_failed pre rest :
  Forall fails pre -> resolve (pre ++ rest) = resolve rest.
Proof.
  induction 1 as [|s pre Hs _ IH]; [done|].
  rewrite <- app_comm_cons, <- IH. by apply resolve_cons_fail.
Qed.

Lemma try_live_valid channel validRange v :
  live_data !! channel = Some v ->
  is_valid v validRange = true ->
  try_entry (LiveSource channel validRange)
  = Some (Return (mkResult (Some v) "MODBUS" "GOOD")).
Proof. intros Hv Hok. unfold try_source. cbn. by rewrite Hv, Hok. Qed.

Lemma try_modbus s :
  type s = "modbus" ->
  try_entry s
  = match live_data !! register s with
    | Some v => if is_valid v (range s)
                then Some (Return (mkResult (Some v) "MODBUS" "GOOD"))
                else None
    | None => None
    end.
Proof. intros Ht. unfold try_source. by rewrite Ht. Qed.

Lemma try_manual s :
  type s = "manual" ->
  try_entry s = Some (Return (mkResult (value s) "MANUAL" "STATIC")).
Proof. intros Ht. unfold try_source. by rewrite Ht. Qed.

Lemma try_calculated s :
  type s = "calculated" ->
  try_entry s
  = match compute (formula s) live_data config with
    | Return v => Some (Return (mkResult (Some v) "CALCULATED" "INFERRED"))
    | Raise CalculationError => None
    | Raise e => Some (Raise e)
    end.
Proof. intros Ht. unfold try_source. by rewrite Ht. Qed.

(** When the evaluator's only exception is [CalculationError], no iteration
    leaves the loop with an exception. *)
Lemma try_source_returns s o :
  (forall f e, compute f live_data config = Raise e -> e = CalculationError) ->
  try_entry s = Some o -> exists r, o = Return r.
Proof.
  intros Hc. unfold try_source.
  repeat case_match; intros; simplify_eq; eauto.
  match goal with H : compute _ _ _ = Raise _ |- _ => apply Hc in H; done end.
Qed.

Lemma resolve_sources_returns sources :
  (forall f e, compute f live_data config = Raise e -> e = CalculationError) ->
  exists r, resolve sources = Return r.
Proof.
  intros Hc. induction sources as [|s rest IH]; cbn; [eauto|].
  destruct (try_source _ _ s _ _) as [o|] eqn:Hs; [|done].
  by eapply try_source_returns.
Qed.

End resolver_facts.

Section resolver_priority.
Import Resolver.

(** C1. The source chain is a strict priority order. When the first [n]
    entries [pre] of a parameter's chain fail, the result is the evaluation
    of entry [n+1]: whatever that entry produces is the result, and only when
    it fails too does the walk go on to the entries after it. Once an entry
    succeeds, the entries after it are not consulted: replacing them changes
    nothing. In particular, for a chain of a live source followed by three
    further entries of any kind and validity, a valid live value is the
    result: source MODBUS, quality GOOD, shown with the LIVE badge. *)
Theorem chain_is_strict_priority
    (is_valid : Q -> Range -> bool)
    (compute : Formula -> LiveData -> Config -> outcome Q)
    (config : Config) (live_data : LiveData) :
  (forall param_name pre entry post,
     get_source_priority config param_name = pre ++ entry :: post ->
     Forall (entry_fails is_valid compute config live_data) pre ->
     resolve_parameter is_valid compute param_name config live_data
     = match try_source is_valid compute entry config live_data with
       | Some o => o
       | None => resolve_sources is_valid compute post config live_data
       end)
  /\ (forall pre entry post post' o,
        Forall (entry_fails is_valid compute config live_data) pre ->
        try_source is_valid compute entry config live_data = Some o ->
        resolve_sources is_valid compute (pre ++ entry :: post) config live_data = o
        /\ resolve_sources is_valid compute (pre ++ entry :: post') config live_data = o)
  /\ (forall param_name channel validRange v c m d,
        get_source_priority config param_name
        = [LiveSource channel validRange; c; m; d] ->
        live_data !! channel = Some v ->
        is_valid v validRange = true ->
        resolve_parameter is_valid compute param_name config live_data
        = Return (mkResult (Some v) "MODBUS" "GOOD")
        /\ badge (mkResult (Some v) "MODBUS" "GOOD") = Some LIVE).
Proof.
  split; [|split].
  - intros param_name pre entry post Hchain Hpre.
    unfold resolve_parameter. rewrite Hchain.
    by rewrite resolve_skip_failed.
  - intros pre entry post post' o Hpre Ho.
    rewrite !resolve_skip_failed by done.
    split; by apply resolve_cons_done.
  - intros param_name channel validRange v c m d Hchain Hv Hok.
    split; [|done]. unfold resolve_parameter. rewrite Hchain.
    apply resolve_cons_done. by apply try_live_valid.
Qed.

(** C4. When every entry of a parameter's chain fails (an empty chain and a
    chain without default source included), the resolver returns, without
    raising, the result with no value, source NONE and quality BAD, shown
    with the BAD badge. *)
Theorem exhausted_chain_is_bad
    (is_valid : Q -> Range -> bool)
    (compute : Formula -> LiveData -> Config -> outcome Q)
    (param_name : string) (config : Config) (live_data : LiveData) :
  Forall (entry_fails is_valid compute config live_data)
    (get_source_priority config param_name) ->
  resolve_parameter is_valid compute param_name config live_data
  = Return (mkResult None "NONE" "BAD")
  /\ badge (mkResult None "NONE" "BAD") = Some BAD.
Proof.
  intros Hall. split; [|done]. unfold resolve_parameter.
  rewrite <- (app_nil_r (get_source_priority config param_name)).
  by rewrite resolve_skip_failed.
Qed.

End resolver_priority.

(** * Properties of the evaluator and of the chain of a tick *)

Section evaluator_facts.
Import Resolver Engine.
Variable math : MathLib.

Lemma lookup_ident_error resolved x e :
  lookup_ident resolved x = Raise e -> e = CalculationError.
Proof. unfold lookup_ident. repeat case_match; congruence. Qed.

Lemma apply_bin_error op x y e :
  apply_bin math op x y = Raise e -> e = CalculationError.
Proof. destruct op; cbn; repeat case_match; congruence. Qed.

Lemma bind_error {A B} (m : outcome A) (k : A -> outcome B) e :
  m ≫= k = Raise e ->
  m = Raise e \/ exists a, m = Return a /\ k a = Raise e.
Proof.
  destruct m; unfold mbind, outcome_bind; cbn; naive_solver.
Qed.

(** The evaluator's only exception is [CalculationError]. *)
Lemma evaluate_error resolved f e :
  evaluate math resolved f = Raise e -> e = CalculationError.
Proof.
  revert e. induction f; intros e; cbn [evaluate]; intros H;
    repeat match goal with
    | H : _ ≫= _ = Raise _ |- _ =>
        apply bind_error in H as [H|(? & _ & H)]; [by eauto|]
    end;
    try congruence;
    eauto using lookup_ident_error, apply_bin_error.
  case_match; congruence.
Qed.

Lemma compute_error resolved f live_data config e :
  compute math resolved f live_data config = Raise e -> e = CalculationError.
Proof. apply evaluate_error. Qed.

(** With this evaluator the resolver always returns. *)
Lemma resolve_parameter_returns resolved nm config live_data :
  exists r, resolve_parameter is_valid (compute math resolved) nm config live_data
            = Return r.
Proof.
  apply resolve_sources_returns. intros f e. apply compute_error.
Qed.

Lemma evaluate_division_by_zero resolved a b y :
  evaluate math resolved b = Return y ->
  Qeq_bool y 0 = true ->
  evaluate math resolved (FBin OpDiv a b) = Raise CalculationError.
Proof.
  intros Hb Hy. cbn [evaluate].
  destruct (evaluate math resolved a) as [x|e] eqn:Ha; cbn.
  - rewrite Hb. cbn. by rewrite Hy.
  - by rewrite (evaluate_error _ _ _ Ha).
Qed.

Lemma evaluate_ln_domain resolved a x :
  evaluate math resolved a = Return x ->
  Qle_bool x 0 = true ->
  evaluate math resolved (FLn a) = Raise CalculationError.
Proof. intros Ha Hx. cbn [evaluate]. rewrite Ha. cbn. by rewrite Hx. Qed.

Lemma evaluate_pow_domain resolved a b x y :
  evaluate math resolved a = Return x ->
  evaluate math resolved b = Return y ->
  pow_fn math x y = None ->
  evaluate math resolved (FBin OpPow a b) = Raise CalculationError.
Proof. intros Ha Hb Hp. cbn [evaluate]. rewrite Ha, Hb. cbn. by rewrite Hp. Qed.

Lemma evaluate_bad_dependency resolved x r :
  resolved !! x = Some r ->
  pr_quality r = "BAD" ->
  evaluate math resolved (FIdent x) = Raise CalculationError.
Proof. intros Hx Hq. cbn. unfold lookup_ident. by rewrite Hx, Hq. Qed.

Lemma evaluate_missing_dependency resolved x :
  resolved !! x = None ->
  evaluate math resolved (FIdent x) = Raise CalculationError.
Proof. intros Hx. cbn. unfold lookup_ident. by rewrite Hx. Qed.

(** A bare identifier reads the value the parameter resolved to. *)
Lemma evaluate_ident_value resolved x r v :
  resolved !! x = Some r ->
  pr_quality r <> "BAD" ->
  pr_value r = Some v ->
  evaluate math resolved (FIdent x) = Return v.
Proof.
  intros Hx Hq Hv. cbn. unfold lookup_ident. rewrite Hx, Hv.
  destruct (String.eqb_spec (pr_quality r) "BAD"); done.
Qed.

End evaluator_facts.

Section chain_facts.
Import Resolver Engine.

Lemma materialise_manual store defaults nm s s' :
  s' ∈ materialise store defaults nm s ->
  type s' = "manual" ->
  exists ov, store !! nm = Some ov /\ valueMode ov = ValueMANUAL
             /\ s' = ManualSource (manualValue ov).
Proof.
  unfold materialise. intros Hin Ht.
  destruct (String.eqb_spec (type s) "manual") as [Hm|Hm].
  - destruct (store !! nm) as [ov|]; [|by apply elem_of_nil in Hin].
    destruct (valueMode ov) eqn:Hmode; [by apply elem_of_nil in Hin|].
    apply list_elem_of_singleton in Hin. eauto.
  - destruct (String.eqb_spec (type s) "default") as [Hd|Hd].
    + destruct (defaults !! nm); [|by apply elem_of_nil in Hin].
      apply list_elem_of_singleton in Hin. by subst s'.
    + apply list_elem_of_singleton in Hin. by subst s'.
Qed.

Lemma Get_name nm defs d : Get nm defs = Some d -> name d = nm /\ d ∈ defs.
Proof.
  unfold Get. intros H. apply find_some in H as [Hin Heq].
  apply String.eqb_eq in Heq. split; [done|]. by apply list_elem_of_In.
Qed.

Lemma chain_refs_materialise store defaults nm s :
  chain_refs (materialise store defaults nm s) = chain_refs [s].
Proof.
  unfold materialise, chain_refs.
  destruct (String.eqb_spec (type s) "manual") as [Hm|Hm].
  - cbn. rewrite Hm. cbn. by repeat case_match.
  - destruct (String.eqb_spec (type s) "default") as [Hd|Hd]; [|done].
    cbn. rewrite Hd. cbn. by repeat case_match.
Qed.

Lemma chain_refs_app l1 l2 :
  chain_refs (l1 ++ l2) = chain_refs l1 ++ chain_refs l2.
Proof. unfold chain_refs. apply flat_map_app. Qed.

(** The manual and default entries of a tick's chain carry no formula: the
    chain references what the definition's chain references. *)
Lemma chain_refs_source_chain store defaults d :
  chain_refs (source_chain store defaults d) = chain_refs (sourceChain d).
Proof.
  unfold source_chain. induction (sourceChain d) as [|s l IH]; [done|].
  cbn [flat_map]. rewrite chain_refs_app, IH, chain_refs_materialise.
  by rewrite <- chain_refs_app.
Qed.

End chain_facts.

Section resolver_entries.
Import Resolver.

(** C8. A manual entry that is reached (all entries before it failed)
    succeeds whatever its value and whatever follows it, and the result
    carries source MANUAL (quality STATIC), shown with the MANUAL badge, one
    of the five tags. In the chain of a tick, a manual entry is present only
    when the parameter's [valueMode] is MANUAL, and then carries the
    user-entered value. *)
Theorem manual_source_is_unconditional
    (is_valid : Q -> Range -> bool)
    (compute : Formula -> LiveData -> Config -> outcome Q)
    (config : Config) (live_data : LiveData) :
  (forall param_name pre entry post,
     get_source_priority config param_name = pre ++ entry :: post ->
     Forall (entry_fails is_valid compute config live_data) pre ->
     type entry = "manual" ->
     resolve_parameter is_valid compute param_name config live_data
     = Return (mkResult (value entry) "MANUAL" "STATIC")
     /\ badge (mkResult (value entry) "MANUAL" "STATIC") = Some MANUAL)
  /\ (forall defs store defaults nm s,
        s ∈ get_source_priority (Engine.config_of defs store defaults) nm ->
        type s = "manual" ->
        exists ov, store !! nm = Some ov
                   /\ Engine.valueMode ov = ValueMANUAL
                   /\ value s = Engine.manualValue ov).
Proof.
  split.
  - intros param_name pre entry post Hchain Hpre Ht. split; [|done].
    unfold resolve_parameter. rewrite Hchain.
    rewrite resolve_skip_failed by done.
    apply resolve_cons_done. by apply try_manual.
  - intros defs store defaults nm s Hin Ht. cbn in Hin.
    destruct (Engine.Get nm defs) as [d|] eqn:Hget;
      [|by apply elem_of_nil in Hin].
    apply Get_name in Hget as [Hname _].
    unfold Engine.source_chain in Hin. rewrite Hname in Hin.
    apply list_elem_of_In, in_flat_map in Hin as (s0 & _ & Hin).
    apply list_elem_of_In in Hin.
    destruct (materialise_manual _ _ _ _ _ Hin Ht) as (ov & Hov & Hmode & ->).
    eauto.
Qed.

(** C3 as stated does not hold of the resolver: it reads no sample time. A
    sample taken at time 0, read at time 1000 under a [maxStaleness] of 5, is
    stale in the spec's sense, and the live entry still succeeds with it. *)
Lemma stale_sample_is_accepted :
  let snap : Engine.TelemetrySnapshot :=
    {[ "reg1" := Engine.mkSample 82.3 0 ]} in
  let entry := LiveSource "reg1" (0, 200)%Q in
  (exists s, snap !! "reg1" = Some s
             /\ Engine.spec_stale 1000 5 s = true)
  /\ ~ entry_fails Engine.is_valid
         (Engine.compute Engine.approx_math ∅) (mkConfig (fun _ => [entry]))
         (Engine.live_data_of snap) entry
  /\ resolve_parameter Engine.is_valid
       (Engine.compute Engine.approx_math ∅) "SuctionTemp1"
       (mkConfig (fun _ => [entry])) (Engine.live_data_of snap)
     = Return (mkResult (Some 82.3%Q) "MODBUS" "GOOD").
Proof.
  cbv zeta. split; [|split].
  - eexists. split; [by vm_compute|]. by vm_compute.
  - unfold entry_fails. by vm_compute.
  - by vm_compute.
Qed.

(** C3, amended. A live (modbus) entry fails exactly when its register is
    absent from the live data or [is_valid] rejects the value against the
    entry's range; the time a sample was taken plays no part: two snapshots
    with the same values and any sample times give the entry the same
    outcome. *)
Theorem live_source_fails_iff
    (is_valid : Q -> Range -> bool)
    (compute : Formula -> LiveData -> Config -> outcome Q)
    (config : Config) (snap : Engine.TelemetrySnapshot) (entry : Source) :
  type entry = "modbus" ->
  (entry_fails is_valid compute config (Engine.live_data_of snap) entry
   <-> (snap !! register entry = None
        \/ exists s, snap !! register entry = Some s
             /\ is_valid (Engine.sample_value s) (range entry) = false))
  /\ (forall snap' : Engine.TelemetrySnapshot,
        Engine.live_data_of snap' = Engine.live_data_of snap ->
        try_source is_valid compute entry config (Engine.live_data_of snap')
        = try_source is_valid compute entry config (Engine.live_data_of snap)).
Proof.
  intros Ht. split; [|by intros snap' ->].
  unfold entry_fails. rewrite try_modbus by done.
  unfold Engine.live_data_of. rewrite lookup_fmap.
  destruct (snap !! register entry) as [s|]; cbn.
  - destruct (is_valid _ _) eqn:Hok; split; try done.
    + intros [|(s' & [= <-] & Hs')]; congruence.
    + intros _. right. eauto.
  - split; [by left|done].
Qed.

(** A calculated entry whose evaluation raises [CalculationError] is passed
    over: the resolver's result is that of the entries behind it. *)
Lemma calculated_entry_skipped
    (is_valid : Q -> Range -> bool)
    (compute : Formula -> LiveData -> Config -> outcome Q)
    (config : Config) (live_data : LiveData)
    (param_name : string) (pre : list Source) (entry : Source)
    (post : list Source) :
  get_source_priority config param_name = pre ++ entry :: post ->
  Forall (entry_fails is_valid compute config live_data) pre ->
  type entry = "calculated" ->
  compute (formula entry) live_data config = Raise CalculationError ->
  entry_fails is_valid compute config live_data entry
  /\ resolve_parameter is_valid compute param_name config live_data
     = resolve_sources is_valid compute post config live_data.
Proof.
  intros Hchain Hpre Ht Herr.
  assert (entry_fails is_valid compute config live_data entry) as Hfail.
  { unfold entry_fails. rewrite try_calculated by done. by rewrite Herr. }
  split; [done|]. unfold resolve_parameter. rewrite Hchain.
  rewrite resolve_skip_failed by done. by apply resolve_cons_fail.
Qed.

(** C5. An evaluation failure of a formula does not reach the caller of the
    resolver: it fails the calculated entry, and the resolver's result is the
    result of the entries behind it: what the next entry yields when that
    one succeeds, and the result without source when none is left. The
    resolver catches [CalculationError] and nothing else; the evaluator of
    the design signals a division by zero, the logarithm of a non-positive
    number, a power outside its domain and a dependency that is [BAD] or
    missing in this tick in that way, and raises nothing else, so that with
    it the resolver returns a result for every chain. *)
Theorem calculation_failure_falls_through
    (is_valid : Q -> Range -> bool)
    (compute : Formula -> LiveData -> Config -> outcome Q)
    (config : Config) (live_data : LiveData)
    (math : Engine.MathLib) (resolved : Engine.ResolvedSnapshot) :
  ((forall f e, compute f live_data config = Raise e -> e = CalculationError) ->
   forall param_name, exists r,
     resolve_parameter is_valid compute param_name config live_data
     = Return r)
  /\ (forall entry rest,
        type entry = "calculated" ->
        compute (formula entry) live_data config = Raise CalculationError ->
        entry_fails is_valid compute config live_data entry
        /\ resolve_sources is_valid compute (entry :: rest) config live_data
           = resolve_sources is_valid compute rest config live_data)
  /\ (forall param_name pre entry post,
        get_source_priority config param_name = pre ++ entry :: post ->
        Forall (entry_fails is_valid compute config live_data) pre ->
        type entry = "calculated" ->
        compute (formula entry) live_data config = Raise CalculationError ->
        resolve_parameter is_valid compute param_name config live_data
        = resolve_sources is_valid compute post config live_data
        /\ (forall next rest o,
              post = next :: rest ->
              try_source is_valid compute next config live_data = Some o ->
              resolve_parameter is_valid compute param_name config live_data
              = o)
        /\ (forall next rest,
              post = next :: rest ->
              type next = "default" ->
              resolve_parameter is_valid compute param_name config live_data
              = Return (mkResult (value next) "DEFAULT" "ASSUMED"))
        /\ (Forall (entry_fails is_valid compute config live_data) post ->
            resolve_parameter is_valid compute param_name config live_data
            = Return (mkResult None "NONE" "BAD")))
  /\ (forall param_name, exists r,
        resolve_parameter is_valid (Engine.compute math resolved) param_name
          config live_data = Return r)
  /\ (forall param_name pre entry post e,
        get_source_priority config param_name = pre ++ entry :: post ->
        Forall (entry_fails is_valid (Engine.compute math resolved) config
                  live_data) pre ->
        type entry = "calculated" ->
        Engine.compute math resolved (formula entry) live_data config
        = Raise e ->
        resolve_parameter is_valid (Engine.compute math resolved) param_name
          config live_data
        = resolve_sources is_valid (Engine.compute math resolved) post config
            live_data)
  /\ (forall f e,
        Engine.compute math resolved f live_data config = Raise e ->
        e = CalculationError)
  /\ (forall a b y,
        Engine.evaluate math resolved b = Return y -> Qeq_bool y 0 = true ->
        Engine.compute math resolved (FBin OpDiv a b) live_data config
        = Raise CalculationError)
  /\ (forall a x,
        Engine.evaluate math resolved a = Return x -> Qle_bool x 0 = true ->
        Engine.compute math resolved (FLn a) live_data config
        = Raise CalculationError)
  /\ (forall a b x y,
        Engine.evaluate math resolved a = Return x ->
        Engine.evaluate math resolved b = Return y ->
        Engine.pow_fn math x y = None ->
        Engine.compute math resolved (FBin OpPow a b) live_data config
        = Raise CalculationError)
  /\ (forall x,
        (resolved !! x = None
         \/ exists r, resolved !! x = Some r /\ pr_quality r = "BAD") ->
        Engine.compute math resolved (FIdent x) live_data config
        = Raise CalculationError).
Proof.
  split; [|split; [|split; [|split; [|split]]]].
  - intros Hc param_name. by apply resolve_sources_returns.
  - intros entry rest Ht Herr.
    assert (entry_fails is_valid compute config live_data entry) as Hfail.
    { unfold entry_fails. rewrite try_calculated by done. by rewrite Herr. }
    split; [done|]. by apply resolve_cons_fail.
  - intros param_name pre entry post Hchain Hpre Ht Herr.
    destruct (calculated_entry_skipped is_valid compute config live_data
                param_name pre entry post Hchain Hpre Ht Herr) as [_ ->].
    split; [done|]. split; [|split].
    + intros next rest o -> Hnext. by apply resolve_cons_done.
    + intros next rest -> Hnext. apply resolve_cons_done.
      unfold try_source. by rewrite Hnext.
    + intros Hpost.
      rewrite <- (app_nil_r post). by rewrite resolve_skip_failed.
  - intros param_name. apply resolve_sources_returns.
    intros f e. apply compute_error.
  - intros param_name pre entry post e Hchain Hpre Ht Herr.
    pose proof (compute_error _ _ _ _ _ _ Herr) as ->.
    by destruct (calculated_entry_skipped is_valid
                   (Engine.compute math resolved) config live_data
                   param_name pre entry post Hchain Hpre Ht Herr) as [_ ->].
  - repeat split.
    + intros f e. apply compute_error.
    + intros a b y. apply evaluate_division_by_zero.
    + intros a x. apply evaluate_ln_domain.
    + intros a b x y. apply evaluate_pow_domain.
    + intros x [Hx|(r & Hx & Hq)].
      * by apply evaluate_missing_dependency.
      * by eapply evaluate_bad_dependency.
Qed.

End resolver_entries.

(** * The calibration dialog *)

Section dialog_properties.
Import ModbusMapping.
Variable Number : string -> number.

Lemma calibrated_invariant draft current :
  manual_only_in_manual_mode (calibrated Number draft current).
Proof.
  unfold manual_only_in_manual_mode, calibrated. cbn.
  by destruct (draft_valueMode draft).
Qed.

Lemma calibrated_empty_field draft current :
  trim (draft_manualValue draft) = "" ->
  manualValue (calibrated Number draft current) = None.
Proof.
  intros He. unfold calibrated. cbn. rewrite He.
  by destruct (draft_valueMode draft).
Qed.

Lemma trim_empty : trim "" = "".
Proof. reflexivity. Qed.

(** C9. Applying the calibration dialog preserves, for every register of the
    page and every dialog state, that a manual value is present only in
    MANUAL mode. The register the dialog edits satisfies it whatever it held
    before: in LIVE mode its manual value is null, and it is null as well
    when the manual-value field was left empty (or blank). *)
Theorem applyCalibrationDialog_keeps_manual_invariant (st : PageState) :
  Forall manual_only_in_manual_mode (registers st) ->
  Forall manual_only_in_manual_mode
    (registers (applyCalibrationDialog Number st))
  /\ (forall i current,
        calibrationIndex st = Some i ->
        registers st !! i = Some current ->
        exists edited,
          registers (applyCalibrationDialog Number st) !! i = Some edited
          /\ valueMode edited = Some (draft_valueMode (calibrationDraft st))
          /\ (manualValue edited <> None -> valueMode edited = Some ValueMANUAL)
          /\ (valueMode edited = Some ValueLIVE -> manualValue edited = None)
          /\ (draft_manualValue (calibrationDraft st) = "" ->
              manualValue edited = None)
          /\ (trim (draft_manualValue (calibrationDraft st)) = "" ->
              manualValue edited = None)).
Proof.
  intros Hinv. unfold applyCalibrationDialog. split.
  - destruct (calibrationIndex st) as [i|]; [cbn|done].
    destruct (registers st !! i) as [current|] eqn:Hi; [|done].
    apply Forall_insert; [done|]. apply calibrated_invariant.
  - intros i current -> Hi. cbn. rewrite Hi.
    exists (calibrated Number (calibrationDraft st) current).
    split; [|split; [done|split; [|split; [|split]]]].
    + apply list_lookup_insert_eq. by eapply lookup_lt_Some.
    + apply calibrated_invariant.
    + cbn. destruct (draft_valueMode (calibrationDraft st)); [done|].
      by intros [=].
    + intros He. apply calibrated_empty_field. rewrite He. apply trim_empty.
    + apply calibrated_empty_field.
Qed.

End dialog_properties.

(** * The dashboard's quality badge *)

Section dashboard_properties.
Import Dashboard.

Lemma first_source_absent (srcs : gmap string string) keys :
  (forall key, key ∈ keys -> srcs !! key = None) ->
  first_source srcs keys = None.
Proof.
  induction keys as [|key rest IH]; intros Habs; [done|].
  cbn. rewrite (Habs key) by set_solver.
  apply IH. intros k Hk. apply Habs. set_solver.
Qed.

(** The keys tried for a parameter that is no inherited name: its aliases,
    or the parameter itself. *)
Lemma alias_keys_own (param : string) :
  inherited param = false ->
  alias_keys param = Some (default [param] (sourceAliases !! param)).
Proof.
  intros Hown. unfold alias_keys. rewrite Hown.
  by destruct (sourceAliases !! param).
Qed.

(** No inherited name is an own property of [sourceAliases]. *)
Lemma alias_keys_inherited (param : string) :
  inherited param = true -> alias_keys param = None.
Proof.
  intros Hin. unfold alias_keys. rewrite Hin.
  unfold inherited, inherited_names in Hin. cbn [existsb] in Hin.
  repeat (apply orb_true_iff in Hin as [Hin|Hin];
          [apply String.eqb_eq in Hin; subst param; by vm_compute|]).
  done.
Qed.

(** A parameter without aliases is looked up under its own name only. *)
Lemma getQuality_plain_parameter (liveData : LiveDataResponse)
    (param : string) :
  inherited param = false ->
  sourceAliases !! param = None ->
  (forall srcs, sources liveData = Some srcs -> srcs !! param = None) ->
  getQuality liveData param = Return "LIVE".
Proof.
  intros Hown Hplain Habs. unfold getQuality.
  rewrite alias_keys_own, Hplain by done. cbn [default].
  rewrite first_source_absent; [done|].
  intros key ->%list_elem_of_singleton.
  destruct (sources liveData) as [srcs|]; [by apply Habs|apply lookup_empty].
Qed.

(** An alias that has an entry supplies the badge. *)
Example getQuality_uses_alias :
  getQuality (mkLive "GCS-001" "" (Some {[ "engine_oil_pressure" := "BAD" ]}))
    "engine_oil_press" = Return "BAD".
Proof. run. Qed.

(** C10 as stated does not hold for every parameter name: [constructor] has
    no entry in the snapshot's [sources], and [getQuality] does not return
    ['LIVE'] for it; the alias lookup finds the inherited value and the loop
    over it throws. *)
Lemma getQuality_throws_on_inherited_name :
  (forall srcs, sources Scenario.partial_sources = Some srcs ->
                srcs !! "constructor" = None)
  /\ getQuality Scenario.partial_sources "constructor" = Raise TypeError
  /\ getQuality Scenario.partial_sources "constructor" <> Return "LIVE".
Proof.
  split; [|split].
  - intros srcs [= <-]. by vm_compute.
  - by vm_compute.
  - by vm_compute.
Qed.

(** C10, amended. For a parameter name that is none of the names an object
    literal inherits, the badge lookup defaults to LIVE: when neither the
    parameter nor any of its known aliases has an entry in the snapshot's
    [sources] record (a snapshot without [sources] included), [getQuality]
    returns ['LIVE'], so a value of unknown provenance is shown with the
    LIVE badge. The keys looked up are the parameter's aliases, or the
    parameter itself when it has none. *)
Theorem getQuality_defaults_to_LIVE (liveData : LiveDataResponse)
    (param : string) :
  inherited param = false ->
  (forall srcs key,
     sources liveData = Some srcs ->
     key ∈ default [param] (sourceAliases !! param) ->
     srcs !! key = None) ->
  getQuality liveData param = Return "LIVE".
Proof.
  intros Hown Habs. unfold getQuality. rewrite alias_keys_own by done.
  rewrite first_source_absent; [done|].
  intros key Hkey. destruct (sources liveData) as [srcs|] eqn:Hs.
  - by eapply Habs.
  - apply lookup_empty.
Qed.

End dashboard_properties.

(** * The registry: reference graph, topological order, [Load] *)

Section registry_facts.
Import Resolver Engine.
Variable defs : list ParameterDef.

Lemma deps_spec nm r :
  r ∈ deps defs nm <->
  exists d, d ∈ defs /\ name d = nm /\ r ∈ chain_refs (sourceChain d).
Proof.
  unfold deps. rewrite list_elem_of_In, in_flat_map. split.
  - intros (d & Hd & Hr). exists d. rewrite list_elem_of_In.
    destruct (String.eqb_spec (name d) nm); [|done].
    by rewrite list_elem_of_In.
  - intros (d & Hd & Hn & Hr). exists d. rewrite <- list_elem_of_In.
    split; [done|]. apply String.eqb_eq in Hn. rewrite Hn.
    by apply list_elem_of_In.
Qed.

Lemma edge_from_defined a b : edge defs a b -> a ∈ names defs.
Proof.
  unfold edge. rewrite deps_spec. intros (d & Hd & <- & _).
  unfold names. apply list_elem_of_In, in_map. by apply list_elem_of_In.
Qed.

Lemma tc_edge_from_defined a b : tc (edge defs) a b -> a ∈ names defs.
Proof. destruct 1; by eapply edge_from_defined. Qed.

Lemma topo_check_app seen l1 l2 :
  topo_check defs seen (l1 ++ l2)
  = topo_check defs seen l1 && topo_check defs (seen ++ l1) l2.
Proof.
  revert seen. induction l1 as [|n l1 IH]; intros seen; cbn.
  - by rewrite app_nil_r.
  - rewrite IH, <- app_assoc. cbn. by rewrite !andb_assoc.
Qed.

Lemma ready_spec placed n :
  ready defs placed n = true <-> forall r, r ∈ deps defs n -> r ∈ placed.
Proof.
  unfold ready. rewrite forallb_forall. split.
  - intros H r Hr. apply list_elem_of_In, H in Hr.
    by apply bool_decide_eq_true in Hr.
  - intros H r Hr. apply bool_decide_eq_true, H. by apply list_elem_of_In.
Qed.

Lemma topo_check_at seen pre n post :
  topo_check defs seen (pre ++ n :: post) = true ->
  (n ∉ seen ++ pre) /\ forall r, r ∈ deps defs n -> r ∈ seen ++ pre.
Proof.
  rewrite topo_check_app. cbn [topo_check].
  rewrite !andb_true_iff, bool_decide_eq_true.
  intros (_ & (Hn & Hr) & _). split; [done|]. by apply ready_spec.
Qed.

Lemma topo_check_snoc placed n :
  topo_check defs [] placed = true ->
  n ∉ placed ->
  ready defs placed n = true ->
  topo_check defs [] (placed ++ [n]) = true.
Proof.
  intros Hp Hn Hr. rewrite topo_check_app, Hp. cbn.
  unfold ready in Hr. rewrite Hr. by rewrite bool_decide_eq_true_2.
Qed.

(** In a topological order, everything a parameter reaches stands before
    it. *)
Lemma topo_check_reach pre n post x :
  topo_check defs [] (pre ++ n :: post) = true ->
  tc (edge defs) n x -> x ∈ pre.
Proof.
  intros Hok Htc. revert pre post Hok.
  induction Htc as [n x Hnx|n y x Hny _ IH]; intros pre post Hok.
  - by apply (topo_check_at [] pre n post).
  - assert (y ∈ pre) as Hy by by apply (topo_check_at [] pre n post).
    apply list_elem_of_split in Hy as (p1 & p2 & ->).
    rewrite <- app_assoc in Hok. cbn in Hok.
    specialize (IH _ _ Hok). apply elem_of_app. by left.
Qed.

Lemma topological_acyclic o : topological defs o -> ~ has_cycle defs.
Proof.
  intros [Hok Hall] [a Ha].
  assert (a ∈ o) as Hin by by eapply Hall, tc_edge_from_defined.
  apply list_elem_of_split in Hin as (pre & post & ->).
  pose proof (topo_check_reach _ _ _ _ Hok Ha) as Hpre.
  by destruct (topo_check_at [] pre a post Hok) as [Hn _].
Qed.

Lemma topo_sort_sound fuel pending placed o :
  topo_check defs [] placed = true ->
  (forall n, n ∈ pending -> n ∉ placed) ->
  topo_sort defs fuel pending placed = inr o ->
  topo_check defs [] o = true
  /\ forall n, n ∈ pending \/ n ∈ placed -> n ∈ o.
Proof.
  revert pending placed.
  induction fuel as [|fuel IH]; intros pending placed Hok Hdisj;
    destruct pending as [|p pending]; cbn [topo_sort];
    try (intros [= <-]; split; [done|]; intros n [Hn|Hn];
         [by apply elem_of_nil in Hn|done]);
    try done.
  destruct (find (ready defs placed) (p :: pending)) as [n|] eqn:Hfind;
    [|done].
  apply find_some in Hfind as [Hin Hready].
  apply list_elem_of_In in Hin.
  intros Hsort. apply IH in Hsort as [Ho Hcover].
  - split; [done|]. intros m [Hm|Hm].
    + destruct (decide (m = n)) as [->|Hne].
      * apply Hcover. right. apply elem_of_app. right.
        by apply list_elem_of_singleton.
      * apply Hcover. left. by apply list_elem_of_filter.
    + apply Hcover. right. apply elem_of_app. by left.
  - apply topo_check_snoc; auto.
  - intros m Hm. apply list_elem_of_filter in Hm as [Hne Hm].
    apply not_elem_of_app. split; [by apply Hdisj|].
    by rewrite list_elem_of_singleton.
Qed.

Lemma unknown_refs_complete :
  has_unknown_reference defs -> unknown_refs defs <> [].
Proof.
  intros (a & b & _ & Hedge & Hb) Hnil.
  apply deps_spec in Hedge as (d & Hd & Hn & Hr).
  assert ((a, b) ∈ unknown_refs defs) as Hin.
  { unfold unknown_refs. apply list_elem_of_In, in_flat_map.
    exists d. split; [by apply list_elem_of_In|].
    apply list_elem_of_In. rewrite Hn.
    apply (list_elem_of_fmap_2 (fun r => (a, r))).
    by apply list_elem_of_filter. }
  rewrite Hnil in Hin. by apply elem_of_nil in Hin.
Qed.

Lemma unknown_refs_sound :
  unknown_refs defs = [] -> ~ has_unknown_reference defs.
Proof. intros Hnil Hu. by apply unknown_refs_complete in Hu. Qed.

Lemma forallb_false {A} (f : A -> bool) l :
  forallb f l = false -> exists x, x ∈ l /\ f x = false.
Proof.
  induction l as [|a l IH]; cbn; [done|].
  destruct (f a) eqn:Hfa; cbn.
  - intros (x & Hx & Hfx)%IH. exists x. split; [by right|done].
  - intros _. exists a. split; [by left|done].
Qed.

Lemma tc_flatten {A} (R : relation A) x y : tc (tc R) x y -> tc R x y.
Proof. induction 1; [done|]. by etrans. Qed.

(** Among finitely many nodes that all have a successor among themselves
    lies a cycle. *)
Lemma cycle_among_successors {A} (R : relation A) (l : list A) :
  l <> [] ->
  (forall x, x ∈ l -> exists y, y ∈ l /\ R x y) ->
  exists a, tc R a a.
Proof.
  revert R. induction l as [|n l IH]; intros R Hne Hsucc; [done|].
  destruct (Hsucc n) as (z & Hz & Hnz); [by left|].
  apply elem_of_cons in Hz as [->|Hz]; [exists n; by apply tc_once|].
  destruct (IH (tc R)) as [a Ha].
  - intros ->. by apply elem_of_nil in Hz.
  - intros x Hx. destruct (Hsucc x) as (y & Hy & Hxy); [by right|].
    apply elem_of_cons in Hy as [->|Hy].
    + exists z. split; [done|]. eapply tc_l; [done|]. by apply tc_once.
    + exists y. split; [done|]. by apply tc_once.
  - exists a. by apply tc_flatten.
Qed.

Lemma length_filter_lt (n : string) (l : list string) :
  n ∈ l -> length (filter (fun m => m ≠ n) l) < length l.
Proof.
  induction l as [|a l IH]; [by intros ?%elem_of_nil|].
  intros Hin. rewrite filter_cons. destruct (decide (a ≠ n)) as [Hne|Heq].
  - cbn. apply elem_of_cons in Hin as [->|Hin]; [done|].
    specialize (IH Hin). lia.
  - cbn. pose proof (length_filter (fun m => m ≠ n) l). lia.
Qed.

(** Without a cycle the sort does not get stuck. *)
Lemma topo_sort_complete fuel pending placed :
  ~ has_cycle defs ->
  length pending <= fuel ->
  (forall n r, n ∈ pending -> r ∈ deps defs n -> r ∈ pending \/ r ∈ placed) ->
  exists o, topo_sort defs fuel pending placed = inr o.
Proof.
  intros Hacyclic. revert pending placed.
  induction fuel as [|fuel IH]; intros pending placed Hlen Hdeps;
    destruct pending as [|p pending]; cbn [topo_sort]; eauto;
    [cbn in Hlen; lia|].
  destruct (find (ready defs placed) (p :: pending)) as [n|] eqn:Hfind.
  - apply find_some in Hfind as [Hin Hready].
    apply list_elem_of_In in Hin. apply IH.
    + pose proof (length_filter_lt n _ Hin). lia.
    + intros m r [Hne Hm]%list_elem_of_filter Hr.
      destruct (decide (r = n)) as [->|Hrn].
      * right. apply elem_of_app. right. by apply list_elem_of_singleton.
      * destruct (Hdeps m r Hm Hr) as [Hp|Hp].
        -- left. by apply list_elem_of_filter.
        -- right. apply elem_of_app. by left.
  - exfalso. apply Hacyclic.
    apply (cycle_among_successors (edge defs) (p :: pending)); [done|].
    intros x Hx.
    pose proof (find_none _ _ Hfind x (proj1 (list_elem_of_In _ _) Hx))
      as Hnot.
    apply forallb_false in Hnot as (r & Hr & Hrp).
    apply bool_decide_eq_false in Hrp.
    exists r. split; [|done]. by destruct (Hdeps x r Hx Hr).
Qed.

Lemma unknown_refs_nil :
  ~ has_unknown_reference defs -> unknown_refs defs = [].
Proof.
  intros Hno. destruct (unknown_refs defs) as [|[p r] l] eqn:Hu; [done|].
  exfalso. apply Hno.
  assert ((p, r) ∈ unknown_refs defs) as Hin by (rewrite Hu; by left).
  unfold unknown_refs in Hin.
  apply list_elem_of_In, in_flat_map in Hin as (d & Hd & Hin).
  apply list_elem_of_In, list_elem_of_fmap in Hin as (r' & [= -> ->] & Hin).
  apply list_elem_of_filter in Hin as [Hr Hin].
  apply list_elem_of_In in Hd.
  exists (name d), r'. split; [|split; [|done]].
  - unfold names. by apply list_elem_of_In, in_map, list_elem_of_In.
  - apply deps_spec. eauto.
Qed.

(** [Load] accepts every generation without cycle and unknown reference. *)
Lemma Load_accepts_valid reg :
  ~ has_cycle defs -> ~ has_unknown_reference defs ->
  exists o, Load defs reg = (None, mkRegistry defs o).
Proof.
  intros Hacyclic Hknown. unfold Load.
  rewrite (unknown_refs_nil Hknown).
  destruct (topo_sort_complete (length defs) (names defs) [] Hacyclic)
    as [o ->]; [| |eauto].
  - unfold names. by rewrite length_map.
  - intros n r Hn Hr. left.
    destruct (decide (r ∈ names defs)) as [|Hout]; [done|].
    exfalso. apply Hknown. by exists n, r.
Qed.

(** [Load] either rejects and keeps the registry, or swaps in the new
    generation with a topological order for it. *)
Lemma Load_cases reg :
  (exists e, Load defs reg = (Some e, reg))
  \/ (exists o, Load defs reg = (None, mkRegistry defs o)
               /\ unknown_refs defs = []
               /\ topological defs o).
Proof.
  unfold Load. destruct (unknown_refs defs) as [|[p r] ?] eqn:Hu; [|eauto].
  destruct (topo_sort _ _ _ _) as [stuck|o] eqn:Hsort; [eauto|].
  right. exists o. split; [done|]. split; [done|].
  apply topo_sort_sound in Hsort as [Ho Hcover]; [|done|].
  - split; [done|]. intros n Hn. apply Hcover. by left.
  - intros n _. apply not_elem_of_nil.
Qed.

End registry_facts.

(** * The evaluation pass of a tick *)

Section tick_facts.
Import Resolver Engine.
Variable math : MathLib.
Variable defs : list ParameterDef.
Variable config : Config.
Variable live_data : LiveData.
Hypothesis config_refs : refs_within defs config.

(** A formula reads the snapshot only at the identifiers it names. *)
Lemma evaluate_local (m1 m2 : ResolvedSnapshot) f :
  (forall x, x ∈ idents f -> m1 !! x = m2 !! x) ->
  evaluate math m1 f = evaluate math m2 f.
Proof.
  induction f; cbn [evaluate idents]; intros Hagree;
    repeat match goal with
    | IH : _ -> evaluate math m1 ?g = _ |- _ =>
        rewrite IH by (intros; apply Hagree; cbn; set_solver); clear IH
    end; try done.
  unfold lookup_ident. rewrite Hagree; [done|]. cbn. set_solver.
Qed.

Lemma try_source_local (m1 m2 : ResolvedSnapshot) s :
  (forall x, x ∈ chain_refs [s] -> m1 !! x = m2 !! x) ->
  try_source is_valid (compute math m1) s config live_data
  = try_source is_valid (compute math m2) s config live_data.
Proof.
  unfold chain_refs. cbn [flat_map]. rewrite app_nil_r. intros Hagree.
  unfold try_source.
  destruct (String.eqb (type s) "modbus"); [done|].
  destruct (String.eqb (type s) "calculated"); [|done].
  unfold compute. by rewrite (evaluate_local m1 m2).
Qed.

Lemma resolve_sources_local (m1 m2 : ResolvedSnapshot) chain :
  (forall x, x ∈ chain_refs chain -> m1 !! x = m2 !! x) ->
  resolve_sources is_valid (compute math m1) chain config live_data
  = resolve_sources is_valid (compute math m2) chain config live_data.
Proof.
  induction chain as [|s chain IH]; [done|]. intros Hagree.
  change (s :: chain) with ([s] ++ chain) in Hagree.
  setoid_rewrite chain_refs_app in Hagree.
  setoid_rewrite elem_of_app in Hagree.
  cbn [resolve_sources].
  rewrite (try_source_local m1 m2) by auto.
  rewrite IH by auto. done.
Qed.

(** A parameter's result depends on the snapshot only at the parameters it
    references. *)
Lemma resolve_parameter_local (m1 m2 : ResolvedSnapshot) nm :
  (forall x, x ∈ deps defs nm -> m1 !! x = m2 !! x) ->
  resolve_parameter is_valid (compute math m1) nm config live_data
  = resolve_parameter is_valid (compute math m2) nm config live_data.
Proof.
  intros Hagree. apply resolve_sources_local.
  intros x Hx. by apply Hagree, config_refs.
Qed.

Lemma evaluate_in_order_returns todo resolved :
  exists snap,
    evaluate_in_order math config live_data todo resolved = Return snap.
Proof.
  revert resolved. induction todo as [|nm rest IH]; intros resolved; cbn.
  - eauto.
  - destruct (resolve_parameter_returns math resolved nm config live_data)
      as [r ->].
    apply IH.
Qed.

Lemma settled_empty : settled math defs config live_data [] ∅.
Proof.
  split; [|split].
  - intros n. rewrite lookup_empty. split.
    + by intros ?%elem_of_nil.
    + by intros [? ?].
  - by intros n x ?%elem_of_nil.
  - intros n r. by rewrite lookup_empty.
Qed.

Lemma settled_step seen resolved nm r :
  settled math defs config live_data seen resolved ->
  nm ∉ seen ->
  (forall x, x ∈ deps defs nm -> x ∈ seen) ->
  resolve_parameter is_valid (compute math resolved) nm config live_data
  = Return r ->
  settled math defs config live_data (seen ++ [nm]) (<[nm := r]> resolved).
Proof.
  intros (Hdom & Hclosed & Hfix) Hnew Hdeps Hr. split; [|split].
  - intros n. rewrite elem_of_app, list_elem_of_singleton, lookup_insert_is_Some.
    rewrite Hdom. destruct (decide (nm = n)) as [->|Hne]; split.
    + intros _. by left.
    + intros _. by right.
    + intros [H|H]; [by right; split|congruence].
    + intros [H|[_ H]]; [congruence|by left].
  - intros n x [Hn| ->%list_elem_of_singleton]%elem_of_app Hx;
      apply elem_of_app; left; eauto.
  - intros n r' Hn.
    assert (forall m, m ∈ seen -> <[nm := r]> resolved !! m = resolved !! m)
      as Hsame.
    { intros m Hm. apply lookup_insert_ne. by intros ->. }
    destruct (decide (nm = n)) as [<-|Hne].
    + rewrite lookup_insert_eq in Hn. injection Hn as <-.
      rewrite <- Hr. apply resolve_parameter_local.
      intros x Hx. by apply Hsame, Hdeps.
    + rewrite lookup_insert_ne in Hn by done.
      rewrite <- (Hfix _ _ Hn). apply resolve_parameter_local.
      intros x Hx. apply Hsame. apply (Hclosed n); [|done].
      apply Hdom. by eexists.
Qed.

(** Evaluating a topological order from a settled snapshot gives a settled
    snapshot. *)
Lemma evaluate_in_order_settled todo seen resolved snap :
  settled math defs config live_data seen resolved ->
  topo_check defs seen todo = true ->
  evaluate_in_order math config live_data todo resolved = Return snap ->
  settled math defs config live_data (seen ++ todo) snap.
Proof.
  revert seen resolved.
  induction todo as [|nm rest IH]; intros seen resolved Hs Hok; cbn.
  - intros [= <-]. by rewrite app_nil_r.
  - destruct (resolve_parameter_returns math resolved nm config live_data)
      as [r Hr].
    rewrite Hr. cbn. intros Hrest.
    cbn [topo_check] in Hok.
    rewrite !andb_true_iff, bool_decide_eq_true in Hok.
    destruct Hok as ((Hnew & Hready) & Hok).
    change (nm :: rest) with ([nm] ++ rest). rewrite app_assoc.
    eapply IH; [|done|done].
    apply settled_step; [done|done| |done].
    by apply ready_spec.
Qed.

(** Two settled snapshots over a topological order agree. *)
Lemma settled_unique o snap1 snap2 :
  topo_check defs [] o = true ->
  settled math defs config live_data o snap1 ->
  settled math defs config live_data o snap2 ->
  snap1 = snap2.
Proof.
  intros Hok (Hdom1 & _ & Hfix1) (Hdom2 & _ & Hfix2).
  assert (forall pre post, o = pre ++ post ->
          forall n, n ∈ pre -> snap1 !! n = snap2 !! n) as Hagree.
  { induction pre as [|m pre IH] using rev_ind; intros post Ho n Hn.
    - by apply elem_of_nil in Hn.
    - rewrite <- app_assoc in Ho. cbn in Ho.
      apply elem_of_app in Hn as [Hn| ->%list_elem_of_singleton];
        [by eapply IH|].
      assert (m ∈ o) as Hm.
      { rewrite Ho. apply elem_of_app. right. by left. }
      destruct (proj1 (Hdom1 m) Hm) as [r1 H1].
      destruct (proj1 (Hdom2 m) Hm) as [r2 H2].
      rewrite H1, H2.
      pose proof (Hfix1 _ _ H1) as E1. pose proof (Hfix2 _ _ H2) as E2.
      rewrite (resolve_parameter_local snap1 snap2) in E1; [congruence|].
      intros x Hx. eapply IH; [done|].
      subst o. by apply (topo_check_at defs [] pre m post). }
  apply map_eq. intros n.
  destruct (decide (n ∈ o)) as [Hn|Hn].
  - by apply (Hagree o []); [rewrite app_nil_r|].
  - destruct (snap1 !! n) eqn:H1.
    { exfalso. apply Hn, Hdom1. by eexists. }
    destruct (snap2 !! n) eqn:H2; [|done].
    exfalso. apply Hn, Hdom2. by eexists.
Qed.

Lemma settled_perm o1 o2 snap :
  o1 ≡ₚ o2 ->
  settled math defs config live_data o1 snap ->
  settled math defs config live_data o2 snap.
Proof.
  intros Hp (Hdom & Hclosed & Hfix). split; [|split; [|done]].
  - intros n. rewrite <- Hdom. by rewrite Hp.
  - intros n x. rewrite <- !Hp. apply Hclosed.
Qed.

End tick_facts.

Section engine_properties.
Import Resolver Engine.

Lemma config_of_refs defs store defaults :
  refs_within defs (config_of defs store defaults).
Proof.
  intros nm x. cbn. destruct (Get nm defs) as [d|] eqn:Hget.
  - rewrite chain_refs_source_chain. intros Hx.
    apply Get_name in Hget as [Hname Hd].
    apply deps_spec. eauto.
  - by intros ?%elem_of_nil.
Qed.

Lemma resolve_tick_in_settled math todo inp :
  topo_check (generation (registry inp)) [] todo = true ->
  exists snap,
    resolve_tick_in math todo inp = Return snap
    /\ settled math (generation (registry inp))
         (config_of (generation (registry inp)) (overrides inp)
            (default_table inp))
         (live_data_of (telemetry inp)) todo snap.
Proof.
  intros Hok. unfold resolve_tick_in.
  destruct (evaluate_in_order_returns math
              (config_of (generation (registry inp)) (overrides inp)
                 (default_table inp))
              (live_data_of (telemetry inp)) todo ∅) as [snap Hsnap].
  exists snap. split; [done|].
  apply (evaluate_in_order_settled math (generation (registry inp)) _ _
           (config_of_refs _ _ _) todo [] ∅ snap); [|done|done].
  apply settled_empty.
Qed.

(** C2. In a tick over a generation that [Load] accepted, every parameter's
    published result is its chain resolved with the formulas reading the
    results of this same tick: a formula that references [A] computes with the
    value [A] resolved to, after [A]'s own fallback, and with nothing from the
    telemetry. So when [A] resolved to the value [a], by whatever entry of its
    chain, a source with formula [A * 2] produces [a * 2] with source
    CALCULATED (quality INFERRED, the CALCULATED badge), not BAD. *)
Theorem calculated_reads_resolved_values
    (math : MathLib) (defs : list ParameterDef) (reg0 : Registry)
    (inp : TickInputs) :
  Load defs reg0 = (None, registry inp) ->
  exists snap,
    resolve_tick math inp = Return snap
    /\ (forall B rB,
          snap !! B = Some rB ->
          resolve_parameter is_valid (compute math snap) B
            (config_of defs (overrides inp) (default_table inp))
            (live_data_of (telemetry inp))
          = Return rB)
    /\ (forall A rA a config live_data,
          snap !! A = Some rA ->
          pr_value rA = Some a ->
          pr_quality rA <> "BAD" ->
          resolve_sources is_valid (compute math snap)
            [CalculatedSource (FBin OpMul (FIdent A) (FNum 2))]
            config live_data
          = Return (mkResult (Some (a * 2)%Q) "CALCULATED" "INFERRED")
          /\ badge (mkResult (Some (a * 2)%Q) "CALCULATED" "INFERRED")
             = Some CALCULATED).
Proof.
  intros Hload.
  destruct (Load_cases defs reg0) as [[e He]|(o & Ho & _ & Htopo & _)];
    [congruence|].
  rewrite Ho in Hload. injection Hload as Hreg.
  destruct (resolve_tick_in_settled math (order (registry inp)) inp)
    as (snap & Hsnap & Hsettled).
  { by rewrite <- Hreg. }
  exists snap. split; [done|]. rewrite <- Hreg in Hsettled. cbn in Hsettled.
  destruct Hsettled as (_ & _ & Hfix). split; [done|].
  intros A rA a config live_data HA Ha Hq. split; [|done].
  cbn. unfold try_source. cbn. unfold lookup_ident. rewrite HA, Ha.
  by destruct (String.eqb_spec (pr_quality rA) "BAD").
Qed.

(** C6. [Load] swaps or rejects. A generation whose reference graph has a
    cycle, or that references an unknown parameter, is rejected with a
    [ConfigurationError]; whenever [Load] fails the registry, and with it the
    active generation, is what it was. When [Load] succeeds the new
    generation is active, its reference graph has no cycle and no unknown
    reference, and the order the registry holds for it is topological. *)
Theorem Load_swaps_or_rejects (defs : list ParameterDef) (reg : Registry) :
  (has_cycle defs \/ has_unknown_reference defs ->
   exists e : ConfigurationError, Load defs reg = (Some e, reg))
  /\ (forall e reg', Load defs reg = (Some e, reg') -> reg' = reg)
  /\ (forall reg',
        Load defs reg = (None, reg') ->
        generation reg' = defs
        /\ ~ has_cycle defs
        /\ ~ has_unknown_reference defs
        /\ topological defs (order reg')).
Proof.
  destruct (Load_cases defs reg) as [[e He]|(o & Ho & Hu & Htopo)].
  - split; [eauto|]. split; intros; congruence.
  - assert (~ has_cycle defs) as Hacyclic by by eapply topological_acyclic.
    apply unknown_refs_sound in Hu.
    split; [tauto|]. split; [intros; congruence|].
    intros reg' Hl. rewrite Ho in Hl. by injection Hl as <-.
Qed.

(** C7. A tick is a function of its inputs alone. Whatever the scheduler
    published before and whatever its clock, a tick on the same telemetry
    snapshot, manual overrides, default table and generation publishes the
    same snapshot, result by result. The order of evaluation does not matter
    either: any two topological orders of the same parameters give the same
    snapshot, so parameters that do not depend on one another may be
    evaluated in either order. *)
Theorem tick_is_deterministic (math : MathLib) (inp : TickInputs) :
  (exists snap,
     resolve_tick math inp = Return snap
     /\ forall s, published (tick math s inp) = Some snap)
  /\ (forall s1 s2,
        published (tick math s1 inp) = published (tick math s2 inp))
  /\ (forall order1 order2,
        topo_check (generation (registry inp)) [] order1 = true ->
        topo_check (generation (registry inp)) [] order2 = true ->
        order1 ≡ₚ order2 ->
        resolve_tick_in math order1 inp = resolve_tick_in math order2 inp).
Proof.
  assert (exists snap, resolve_tick math inp = Return snap
                       /\ forall s, published (tick math s inp) = Some snap)
    as (snap & Hsnap & Hpub).
  { destruct (evaluate_in_order_returns math
                (config_of (generation (registry inp)) (overrides inp)
                   (default_table inp))
                (live_data_of (telemetry inp)) (order (registry inp)) ∅)
      as [snap Hsnap].
    exists snap. split; [done|]. intros s. unfold tick, resolve_tick.
    unfold resolve_tick_in. by rewrite Hsnap. }
  split; [eauto|]. split.
  - intros s1 s2. by rewrite !Hpub.
  - intros order1 order2 H1 H2 Hperm.
    destruct (resolve_tick_in_settled math order1 inp H1)
      as (snap1 & -> & Hs1).
    destruct (resolve_tick_in_settled math order2 inp H2)
      as (snap2 & -> & Hs2).
    f_equal.
    eapply (settled_unique math (generation (registry inp)));
      [apply config_of_refs|exact H1|exact Hs1|].
    eapply settled_perm; [symmetry; exact Hperm|exact Hs2].
Qed.

End engine_properties.

(** * The properties on the running scenarios *)

Section instances.
Import Resolver Engine Scenario.

(** With [reg1] absent the live entry and the formula (its dependency is
    missing) fail, and the manual entry, third in the chain, is the result;
    with a fresh reading the live entry is. *)
Lemma chain_is_strict_priority_witness :
  get_source_priority suction_config "SuctionTemp1"
  = take 2 suction_chain ++ ManualSource (Some 80%Q) :: drop 3 suction_chain
  /\ Forall (entry_fails is_valid (compute approx_math ∅) suction_config ∅)
       (take 2 suction_chain)
  /\ resolve_parameter is_valid (compute approx_math ∅) "SuctionTemp1"
       suction_config ∅
     = Return (mkResult (Some 80%Q) "MANUAL" "STATIC")
  /\ resolve_parameter is_valid (compute approx_math ∅) "SuctionTemp1"
       suction_config fresh_reading
     = Return (mkResult (Some 82.3%Q) "MODBUS" "GOOD").
Proof.
  assert (Forall (entry_fails is_valid (compute approx_math ∅)
                    suction_config ∅) (take 2 suction_chain)) as Hpre.
  { repeat constructor; unfold entry_fails; run. }
  split; [reflexivity|]. split; [exact Hpre|]. split.
  - destruct (chain_is_strict_priority is_valid (compute approx_math ∅)
                suction_config ∅) as (H1 & _ & _).
    rewrite (H1 "SuctionTemp1" (take 2 suction_chain)
               (ManualSource (Some 80%Q)) (drop 3 suction_chain)
               eq_refl Hpre).
    run.
  - destruct (chain_is_strict_priority is_valid (compute approx_math ∅)
                suction_config fresh_reading) as (_ & _ & H3).
    refine (proj1 (H3 "SuctionTemp1" "reg1" (0, 200)%Q 82.3%Q
                     _ _ _ eq_refl _ _)); run.
Defined.

Lemma exhausted_chain_is_bad_witness :
  let config := mkConfig (fun _ => take 2 suction_chain) in
  Forall (entry_fails is_valid (compute approx_math ∅) config ∅)
    (get_source_priority config "SuctionTemp1")
  /\ resolve_parameter is_valid (compute approx_math ∅) "SuctionTemp1" config ∅
     = Return (mkResult None "NONE" "BAD").
Proof.
  cbv zeta.
  assert (Forall (entry_fails is_valid (compute approx_math ∅)
                    (mkConfig (fun _ => take 2 suction_chain)) ∅)
            (take 2 suction_chain)) as Hall.
  { repeat constructor; unfold entry_fails; run. }
  split; [exact Hall|].
  exact (proj1 (exhausted_chain_is_bad is_valid (compute approx_math ∅)
                  "SuctionTemp1" (mkConfig (fun _ => take 2 suction_chain))
                  ∅ Hall)).
Defined.

Lemma manual_source_is_unconditional_witness :
  get_source_priority suction_config "SuctionTemp1"
  = take 2 suction_chain ++ ManualSource (Some 80%Q) :: drop 3 suction_chain
  /\ Forall (entry_fails is_valid (compute approx_math ∅) suction_config ∅)
       (take 2 suction_chain)
  /\ type (ManualSource (Some 80%Q)) = "manual"
  /\ resolve_parameter is_valid (compute approx_math ∅) "SuctionTemp1"
       suction_config ∅
     = Return (mkResult (Some 80%Q) "MANUAL" "STATIC").
Proof.
  assert (Forall (entry_fails is_valid (compute approx_math ∅)
                    suction_config ∅) (take 2 suction_chain)) as Hpre.
  { repeat constructor; unfold entry_fails; run. }
  split; [reflexivity|]. split; [exact Hpre|]. split; [reflexivity|].
  destruct (manual_source_is_unconditional is_valid (compute approx_math ∅)
              suction_config ∅) as (H1 & _).
  exact (proj1 (H1 "SuctionTemp1" (take 2 suction_chain)
                  (ManualSource (Some 80%Q)) (drop 3 suction_chain)
                  eq_refl Hpre eq_refl)).
Defined.

(** A reading of 500 against the range 0..200 is rejected. *)
Lemma live_source_fails_iff_witness :
  let snap : TelemetrySnapshot := {[ "reg1" := mkSample 500 0 ]} in
  type (LiveSource "reg1" (0, 200)%Q) = "modbus"
  /\ entry_fails is_valid (compute approx_math ∅) suction_config
       (live_data_of snap) (LiveSource "reg1" (0, 200)%Q).
Proof.
  cbv zeta. split; [reflexivity|].
  apply (live_source_fails_iff is_valid (compute approx_math ∅) suction_config
           {[ "reg1" := mkSample 500 0 ]} (LiveSource "reg1" (0, 200)%Q)
           eq_refl).
  right. exists (mkSample 500 0). split; run.
Defined.

(** With no reading of [reg1], [1 / 0] fails its entry and the resolver
    returns the default behind it. *)
Lemma calculation_failure_falls_through_witness :
  let config := mkConfig (fun _ => Cases.division_chain) in
  compute approx_math ∅ (FBin OpDiv (FNum 1) (FNum 0)) ∅ config
  = Raise CalculationError
  /\ resolve_parameter is_valid (compute approx_math ∅) "SuctionTemp1" config ∅
     = Return (mkResult (Some 75%Q) "DEFAULT" "ASSUMED").
Proof.
  cbv zeta.
  destruct (calculation_failure_falls_through is_valid
              (compute approx_math ∅) (mkConfig (fun _ => Cases.division_chain))
              ∅ approx_math ∅)
    as (_ & _ & Hfall & _ & _ & _ & Hdiv & _).
  assert (compute approx_math ∅ (FBin OpDiv (FNum 1) (FNum 0)) ∅
            (mkConfig (fun _ => Cases.division_chain))
          = Raise CalculationError) as Herr.
  { apply (Hdiv (FNum 1) (FNum 0) 0%Q); reflexivity. }
  split; [exact Herr|].
  assert (Forall (entry_fails is_valid (compute approx_math ∅)
                    (mkConfig (fun _ => Cases.division_chain)) ∅)
            [LiveSource "reg1" (0, 200)%Q]) as Hpre.
  { repeat constructor. }
  destruct (Hfall "SuctionTemp1" [LiveSource "reg1" (0, 200)%Q]
              (CalculatedSource (FBin OpDiv (FNum 1) (FNum 0)))
              [DefaultSource (Some 75%Q)] eq_refl Hpre eq_refl Herr)
    as (_ & _ & Hnext & _).
  exact (Hnext (DefaultSource (Some 75%Q)) [] eq_refl eq_refl).
Defined.

(** [reg1] reads out of range, [A] falls back to its default 10 and [B]
    resolves to 20. *)
Lemma calculated_reads_resolved_values_witness :
  Load dependent_defs empty_registry = (None, registry dependent_inputs)
  /\ exists snap,
       resolve_tick approx_math dependent_inputs = Return snap
       /\ snap !! "A" = Some (mkResult (Some 10%Q) "DEFAULT" "ASSUMED")
       /\ snap !! "B" = Some (mkResult (Some 20%Q) "CALCULATED" "INFERRED")
       /\ resolve_parameter is_valid (compute approx_math snap) "B"
            (config_of dependent_defs (overrides dependent_inputs)
               (default_table dependent_inputs))
            (live_data_of (telemetry dependent_inputs))
          = Return (mkResult (Some 20%Q) "CALCULATED" "INFERRED").
Proof.
  assert (Load dependent_defs empty_registry
          = (None, registry dependent_inputs)) as Hload by run.
  split; [exact Hload|].
  destruct (calculated_reads_resolved_values approx_math dependent_defs
              empty_registry dependent_inputs Hload)
    as (snap & Hsnap & Hfix & _).
  assert (resolve_tick approx_math dependent_inputs
          = Return (<["B" := mkResult (Some 20%Q) "CALCULATED" "INFERRED"]>
                      {["A" := mkResult (Some 10%Q) "DEFAULT" "ASSUMED"]}))
    as Hrun by run.
  rewrite Hrun in Hsnap. injection Hsnap as <-.
  eexists. split; [exact Hrun|].
  split; [run|]. split; [run|]. apply Hfix. run.
Defined.

Lemma Load_swaps_or_rejects_witness :
  let active := mkRegistry dependent_defs ["A"; "B"] in
  has_cycle cyclic_defs
  /\ (exists e, Load cyclic_defs active = (Some e, active))
  /\ Load dependent_defs empty_registry = (None, active)
  /\ ~ has_cycle dependent_defs
  /\ topological dependent_defs (order active).
Proof.
  cbv zeta.
  assert (has_cycle cyclic_defs) as Hcycle.
  { exists "A". apply tc_l with "B"; [|apply tc_once];
      unfold edge; apply list_elem_of_In; vm_compute; auto. }
  assert (Load dependent_defs empty_registry
          = (None, mkRegistry dependent_defs ["A"; "B"])) as Hload by run.
  split; [exact Hcycle|]. split; [|split; [exact Hload|]].
  - apply (proj1 (Load_swaps_or_rejects cyclic_defs
                    (mkRegistry dependent_defs ["A"; "B"]))).
    by left.
  - destruct (Load_swaps_or_rejects dependent_defs empty_registry)
      as (_ & _ & Hok).
    destruct (Hok _ Hload) as (_ & Hacyclic & _ & Htopo).
    split; [exact Hacyclic|exact Htopo].
Defined.

(** [P1] and [P2] do not depend on one another: either may go first. *)
Lemma tick_is_deterministic_witness :
  topo_check sum_defs [] ["P1"; "P2"; "Sum"] = true
  /\ topo_check sum_defs [] ["P2"; "P1"; "Sum"] = true
  /\ ["P1"; "P2"; "Sum"] ≡ₚ ["P2"; "P1"; "Sum"]
  /\ resolve_tick_in approx_math ["P1"; "P2"; "Sum"] sum_inputs
     = resolve_tick_in approx_math ["P2"; "P1"; "Sum"] sum_inputs
  /\ published (tick approx_math (mkScheduler 0 None) sum_inputs)
     = published (tick approx_math (mkScheduler 41 (Some ∅)) sum_inputs).
Proof.
  assert (topo_check sum_defs [] ["P1"; "P2"; "Sum"] = true) as H1 by run.
  assert (topo_check sum_defs [] ["P2"; "P1"; "Sum"] = true) as H2 by run.
  assert (["P1"; "P2"; "Sum"] ≡ₚ ["P2"; "P1"; "Sum"]) as Hp
    by apply perm_swap.
  destruct (tick_is_deterministic approx_math sum_inputs)
    as (_ & Hstate & Horder).
  split; [exact H1|]. split; [exact H2|]. split; [exact Hp|].
  split; [exact (Horder _ _ H1 H2 Hp)|apply Hstate].
Defined.

(** Switching the second register from MANUAL to LIVE in the dialog clears
    its manual value, although the field still reads 42. *)
Lemma applyCalibrationDialog_keeps_manual_invariant_witness :
  Forall ModbusMapping.manual_only_in_manual_mode
    (ModbusMapping.registers open_dialog)
  /\ Forall ModbusMapping.manual_only_in_manual_mode
       (ModbusMapping.registers
          (ModbusMapping.applyCalibrationDialog
             ModbusMapping.Number_of_digits open_dialog))
  /\ ModbusMapping.manualValue
       <$> ModbusMapping.registers
             (ModbusMapping.applyCalibrationDialog
                ModbusMapping.Number_of_digits open_dialog) !! 1%nat
     = Some None.
Proof.
  assert (Forall ModbusMapping.manual_only_in_manual_mode
            (ModbusMapping.registers open_dialog)) as Hinv.
  { repeat constructor; unfold ModbusMapping.manual_only_in_manual_mode;
      cbn; congruence. }
  split; [exact Hinv|]. split; [|run].
  exact (proj1 (applyCalibrationDialog_keeps_manual_invariant
                  ModbusMapping.Number_of_digits open_dialog Hinv)).
Defined.

(** The oil temperature has no entry in [sources]: its badge is LIVE. *)
Lemma getQuality_defaults_to_LIVE_witness :
  Dashboard.inherited "engine_oil_temp" = false
  /\ (forall srcs key,
        Dashboard.sources partial_sources = Some srcs ->
        key ∈ default ["engine_oil_temp"]
                (Dashboard.sourceAliases !! "engine_oil_temp") ->
        srcs !! key = None)
  /\ Dashboard.getQuality partial_sources "engine_oil_temp" = Return "LIVE".
Proof.
  assert (Dashboard.inherited "engine_oil_temp" = false) as Hown
    by reflexivity.
  assert (forall srcs key,
            Dashboard.sources partial_sources = Some srcs ->
            key ∈ default ["engine_oil_temp"]
                    (Dashboard.sourceAliases !! "engine_oil_temp") ->
            srcs !! key = None) as Habs.
  { intros srcs key [= <-] Hkey.
    assert (default ["engine_oil_temp"]
              (Dashboard.sourceAliases !! "engine_oil_temp")
            = ["engine_oil_temp"]) as Hkeys by run.
    rewrite Hkeys in Hkey. apply list_elem_of_singleton in Hkey as ->. run. }
  split; [exact Hown|]. split; [exact Habs|].
  exact (getQuality_defaults_to_LIVE partial_sources "engine_oil_temp" Hown
           Habs).
Defined.

(** The plan's scenario, entry by entry: a fresh reading of [reg1] is the
    result; without [reg1] the formula on the upstream discharge temperature
    is; when that is not available either the manual value is; and with
    manual mode off the default is. *)
Example scenario_live :
  resolve_parameter is_valid (compute approx_math ∅) "SuctionTemp1"
    suction_config fresh_reading
  = Return (mkResult (Some 82.3%Q) "MODBUS" "GOOD").
Proof. run. Qed.

Example scenario_calculated :
  resolve_parameter is_valid
    (compute approx_math
       {[ "DischargeTempUp" := mkResult (Some 100%Q) "MODBUS" "GOOD" ]})
    "SuctionTemp1" suction_config ∅
  = Return (mkResult (Some 85%Q) "CALCULATED" "INFERRED").
Proof. run. Qed.

Example scenario_manual :
  resolve_parameter is_valid
    (compute approx_math
       {[ "DischargeTempUp" := mkResult None "NONE" "BAD" ]})
    "SuctionTemp1" suction_config ∅
  = Return (mkResult (Some 80%Q) "MANUAL" "STATIC").
Proof. run. Qed.

Example scenario_default :
  let defs := [mkDef "SuctionTemp1" "degF" suction_chain] in
  resolve_parameter is_valid (compute approx_math ∅) "SuctionTemp1"
    (config_of defs {[ "SuctionTemp1" := mkOverride ValueLIVE (Some 80%Q) ]}
       {[ "SuctionTemp1" := 75%Q ]}) ∅
  = Return (mkResult (Some 75%Q) "DEFAULT" "ASSUMED").
Proof. run. Qed.

Example trim_blank : ModbusMapping.trim "  42 " = "42".
Proof. run. Qed.

End instances.

(** * More on the resolver: where a result comes from *)

Section resolver_provenance.
Import Resolver.
Variable is_valid : Q -> Range -> bool.
Variable compute : Formula -> LiveData -> Config -> outcome Q.
Variable config : Config.
Variable live_data : LiveData.

Local Abbreviation try_entry :=
  (fun s => try_source is_valid compute s config live_data).
Local Abbreviation resolve :=
  (fun l => resolve_sources is_valid compute l config live_data).
Local Abbreviation fails :=
  (entry_fails is_valid compute config live_data).

(** What an iteration that returns has returned, by the kind of entry. *)
Lemma try_source_result s r :
  try_entry s = Some (Return r) ->
  (type s = "modbus" /\ exists v,
     live_data !! register s = Some v /\ is_valid v (range s) = true
     /\ r = mkResult (Some v) "MODBUS" "GOOD")
  \/ (type s = "calculated" /\ exists v,
        compute (formula s) live_data config = Return v
        /\ r = mkResult (Some v) "CALCULATED" "INFERRED")
  \/ (type s = "manual" /\ r = mkResult (value s) "MANUAL" "STATIC")
  \/ (type s = "default" /\ r = mkResult (value s) "DEFAULT" "ASSUMED").
Proof.
  unfold try_source.
  destruct (String.eqb_spec (type s) "modbus") as [Hm|_].
  { destruct (live_data !! register s) as [v|] eqn:Hv; [|done].
    destruct (is_valid v (range s)) eqn:Hok; [|done].
    intros [= <-]. left. eauto. }
  destruct (String.eqb_spec (type s) "calculated") as [Hc|_].
  { destruct (compute (formula s) live_data config) as [v|[|nm]] eqn:Hv;
      [|done|done].
    intros [= <-]. right; left. eauto. }
  destruct (String.eqb_spec (type s) "manual") as [Hm|_].
  { intros [= <-]. right; right; left. eauto. }
  destruct (String.eqb_spec (type s) "default") as [Hd|_]; [|done].
  intros [= <-]. right; right; right. eauto.
Qed.

(** An iteration that leaves with an exception is a calculated entry whose
    evaluation raised something other than [CalculationError]. *)
Lemma try_source_raise s e :
  try_entry s = Some (Raise e) ->
  type s = "calculated" /\ compute (formula s) live_data config = Raise e
  /\ e <> CalculationError.
Proof.
  unfold try_source.
  destruct (String.eqb_spec (type s) "modbus") as [Hm|_].
  { by repeat case_match. }
  destruct (String.eqb_spec (type s) "calculated") as [Hc|_].
  { destruct (compute (formula s) live_data config) as [v|[|nm]] eqn:Hv;
      [done|done|].
    intros [= <-]. done. }
  by repeat case_match.
Qed.

(** Every outcome of the walk is the fall-through result of an exhausted
    chain or the outcome of the first entry that does not fail. *)
Lemma resolve_decompose sources :
  (Forall fails sources
   /\ resolve sources = Return (mkResult None "NONE" "BAD"))
  \/ exists pre entry post o,
       sources = pre ++ entry :: post /\ Forall fails pre
       /\ try_entry entry = Some o /\ resolve sources = o.
Proof.
  induction sources as [|s rest IH].
  - left. by split.
  - destruct (try_entry s) as [o|] eqn:Hs.
    + right. exists [], s, rest, o. cbn. rewrite Hs. by repeat split.
    + destruct IH as [[Hall Hbad]|(pre & entry & post & o & -> & Hpre & Ho & Hres)].
      * left. split; [by constructor|]. cbn. by rewrite Hs.
      * right. exists (s :: pre), entry, post, o. cbn. rewrite Hs.
        repeat split; [by constructor|done|done].
Qed.

Lemma fails_unknown_type s :
  type s <> "modbus" -> type s <> "calculated" ->
  type s <> "manual" -> type s <> "default" ->
  fails s.
Proof.
  intros H1 H2 H3 H4. unfold entry_fails, try_source.
  destruct (String.eqb_spec (type s) "modbus"); [done|].
  destruct (String.eqb_spec (type s) "calculated"); [done|].
  destruct (String.eqb_spec (type s) "manual"); [done|].
  by destruct (String.eqb_spec (type s) "default").
Qed.

Lemma resolve_drop_failed pre s post :
  fails s -> resolve (pre ++ s :: post) = resolve (pre ++ post).
Proof.
  intros Hs. induction pre as [|p pre IH]; cbn.
  - unfold entry_fails in Hs. by rewrite Hs.
  - by rewrite IH.
Qed.

(** Only the exhausted chain gives the result without source. *)
Lemma source_none_exhausted sources r :
  resolve sources = Return r -> pr_source r = "NONE" -> Forall fails sources.
Proof.
  intros Hr Hnone.
  destruct (resolve_decompose sources)
    as [[Hall _]|(pre & entry & post & o & Hchain & Hpre & Ho & Hres)];
    [done|].
  rewrite Hr in Hres. subst o.
  apply try_source_result in Ho
    as [(_ & v & _ & _ & ->)|[(_ & v & _ & ->)|[(_ & ->)|(_ & ->)]]];
    by cbn in Hnone.
Qed.

End resolver_provenance.

Section resolver_extras.
Import Resolver.

(** X1. A parameter resolves to the result without source (NONE, quality
    BAD) exactly when every entry of its chain failed; no entry that
    succeeds produces that result. *)
Theorem bad_result_iff_exhausted
    (is_valid : Q -> Range -> bool)
    (compute : Formula -> LiveData -> Config -> outcome Q)
    (param_name : string) (config : Config) (live_data : LiveData) :
  (exists r,
     resolve_parameter is_valid compute param_name config live_data = Return r
     /\ pr_source r = "NONE")
  <-> Forall (entry_fails is_valid compute config live_data)
        (get_source_priority config param_name).
Proof.
  unfold resolve_parameter. split.
  - intros (r & Hr & Hnone). by eapply source_none_exhausted.
  - intros Hall. exists (mkResult None "NONE" "BAD"). split; [|done].
    rewrite <- (app_nil_r (get_source_priority config param_name)).
    by rewrite resolve_skip_failed.
Qed.

(** X2. A result tagged MODBUS is a validated reading: it is the value of
    the register of a modbus entry of the chain, present in the live data
    and accepted by [is_valid] for that entry's range, and every entry
    before that one failed. *)
Theorem live_result_is_validated
    (is_valid : Q -> Range -> bool)
    (compute : Formula -> LiveData -> Config -> outcome Q)
    (param_name : string) (config : Config) (live_data : LiveData)
    (r : ParameterResult) :
  resolve_parameter is_valid compute param_name config live_data = Return r ->
  pr_source r = "MODBUS" ->
  exists pre entry post v,
    get_source_priority config param_name = pre ++ entry :: post
    /\ Forall (entry_fails is_valid compute config live_data) pre
    /\ type entry = "modbus"
    /\ live_data !! register entry = Some v
    /\ is_valid v (range entry) = true
    /\ r = mkResult (Some v) "MODBUS" "GOOD".
Proof.
  unfold resolve_parameter. intros Hr Hsrc.
  destruct (resolve_decompose is_valid compute config live_data
              (get_source_priority config param_name))
    as [[_ Hbad]|(pre & entry & post & o & Hchain & Hpre & Ho & Hres)].
  { rewrite Hr in Hbad. injection Hbad as ->. by cbn in Hsrc. }
  rewrite Hr in Hres. subst o.
  apply try_source_result in Ho
    as [(Ht & v & Hv & Hok & ->)|[(_ & v & _ & ->)|[(_ & ->)|(_ & ->)]]];
    try by cbn in Hsrc.
  exists pre, entry, post, v. by repeat split.
Qed.

(** X3. Every result the resolver returns has one of five shapes: MODBUS
    with quality GOOD and a value, CALCULATED with INFERRED and a value,
    MANUAL with STATIC, DEFAULT with ASSUMED, or NONE with BAD and no value.
    So source and quality always agree, and every result has a badge. *)
Theorem resolved_result_shape
    (is_valid : Q -> Range -> bool)
    (compute : Formula -> LiveData -> Config -> outcome Q)
    (param_name : string) (config : Config) (live_data : LiveData)
    (r : ParameterResult) :
  resolve_parameter is_valid compute param_name config live_data = Return r ->
  ((exists v, r = mkResult (Some v) "MODBUS" "GOOD")
   \/ (exists v, r = mkResult (Some v) "CALCULATED" "INFERRED")
   \/ (exists ov, r = mkResult ov "MANUAL" "STATIC")
   \/ (exists ov, r = mkResult ov "DEFAULT" "ASSUMED")
   \/ r = mkResult None "NONE" "BAD")
  /\ badge r <> None.
Proof.
  unfold resolve_parameter. intros Hr.
  destruct (resolve_decompose is_valid compute config live_data
              (get_source_priority config param_name))
    as [[_ Hbad]|(pre & entry & post & o & Hchain & Hpre & Ho & Hres)].
  { rewrite Hr in Hbad. injection Hbad as ->. split; [|done].
    by repeat right. }
  rewrite Hr in Hres. subst o.
  apply try_source_result in Ho
    as [(_ & v & _ & _ & ->)|[(_ & v & _ & ->)|[(_ & ->)|(_ & ->)]]];
    (split; [|done]); eauto 10.
Qed.

(** X4. An entry that fails can be taken out of the chain, wherever it
    stands, without changing the result. An entry whose type is none of
    modbus, calculated, manual and default always fails: it is skipped. *)
Theorem failed_entries_are_transparent
    (is_valid : Q -> Range -> bool)
    (compute : Formula -> LiveData -> Config -> outcome Q)
    (config : Config) (live_data : LiveData) :
  (forall pre entry post,
     entry_fails is_valid compute config live_data entry ->
     resolve_sources is_valid compute (pre ++ entry :: post) config live_data
     = resolve_sources is_valid compute (pre ++ post) config live_data)
  /\ (forall pre entry post,
        type entry <> "modbus" -> type entry <> "calculated" ->
        type entry <> "manual" -> type entry <> "default" ->
        resolve_sources is_valid compute (pre ++ entry :: post) config live_data
        = resolve_sources is_valid compute (pre ++ post) config live_data).
Proof.
  split.
  - intros pre entry post. apply resolve_drop_failed.
  - intros pre entry post H1 H2 H3 H4.
    by apply resolve_drop_failed, fails_unknown_type.
Qed.

(** X5. The resolver raises an exception exactly when the first entry that
    does not fail is a calculated entry whose evaluation raised something
    other than [CalculationError]; that exception leaves the resolver, and
    the entries behind it, a default included, are not used. *)
Theorem exception_escapes_iff
    (is_valid : Q -> Range -> bool)
    (compute : Formula -> LiveData -> Config -> outcome Q)
    (param_name : string) (config : Config) (live_data : LiveData)
    (e : exn) :
  resolve_parameter is_valid compute param_name config live_data = Raise e
  <-> exists pre entry post,
        get_source_priority config param_name = pre ++ entry :: post
        /\ Forall (entry_fails is_valid compute config live_data) pre
        /\ type entry = "calculated"
        /\ compute (formula entry) live_data config = Raise e
        /\ e <> CalculationError.
Proof.
  unfold resolve_parameter. split.
  - intros Hr.
    destruct (resolve_decompose is_valid compute config live_data
                (get_source_priority config param_name))
      as [[_ Hbad]|(pre & entry & post & o & Hchain & Hpre & Ho & Hres)];
      [congruence|].
    rewrite Hr in Hres. subst o.
    apply try_source_raise in Ho as (Ht & Hc & Hne).
    exists pre, entry, post. by repeat split.
  - intros (pre & entry & post & -> & Hpre & Ht & Hc & Hne).
    rewrite resolve_skip_failed by done.
    apply resolve_cons_done. rewrite try_calculated by done. rewrite Hc.
    by destruct e.
Qed.

(** X6. A chain that holds a manual or a default entry never resolves to
    the result without source: when the evaluator's only exception is
    [CalculationError], the resolver returns a result and its badge is not
    BAD. *)
Theorem fallback_entry_excludes_bad
    (is_valid : Q -> Range -> bool)
    (compute : Formula -> LiveData -> Config -> outcome Q)
    (param_name : string) (config : Config) (live_data : LiveData)
    (entry : Source) :
  (forall f e, compute f live_data config = Raise e -> e = CalculationError) ->
  entry ∈ get_source_priority config param_name ->
  type entry = "manual" \/ type entry = "default" ->
  exists r,
    resolve_parameter is_valid compute param_name config live_data = Return r
    /\ pr_source r <> "NONE"
    /\ badge r <> Some BAD.
Proof.
  intros Hc Hin Ht.
  destruct (resolve_sources_returns is_valid compute config live_data
              (get_source_priority config param_name) Hc) as [r Hr].
  exists r. split; [done|].
  assert (pr_source r <> "NONE") as Hsrc.
  { intros Hnone.
    assert (Forall (entry_fails is_valid compute config live_data)
              (get_source_priority config param_name)) as Hall.
    { by eapply source_none_exhausted. }
    rewrite Forall_forall in Hall. specialize (Hall _ Hin).
    unfold entry_fails in Hall.
    destruct Ht as [Ht|Ht].
    - by rewrite try_manual in Hall.
    - unfold try_source in Hall. rewrite Ht in Hall. done. }
  split; [done|].
  destruct (resolve_decompose is_valid compute config live_data
              (get_source_priority config param_name))
    as [[_ Hbad]|(pre & en & post & o & Hchain & Hpre & Ho & Hres)].
  { unfold resolve_parameter in Hr. rewrite Hr in Hbad.
    injection Hbad as ->. by cbn in Hsrc. }
  unfold resolve_parameter in Hr. rewrite Hr in Hres. subst o.
  apply try_source_result in Ho
    as [(_ & v & _ & _ & ->)|[(_ & v & _ & ->)|[(_ & ->)|(_ & ->)]]]; done.
Qed.

End resolver_extras.

Section resolver_frame.
Import Resolver.

(** X7. The result for a chain depends on the live data only through the
    registers its modbus entries name and through what its formulas
    evaluate to: two sets of live data that agree on these give the same
    outcome, whatever else they read. *)
Theorem resolve_reads_only_chain_registers
    (is_valid : Q -> Range -> bool)
    (compute : Formula -> LiveData -> Config -> outcome Q)
    (param_name : string) (config : Config) (ld1 ld2 : LiveData) :
  (forall s, s ∈ get_source_priority config param_name ->
             type s = "modbus" -> ld1 !! register s = ld2 !! register s) ->
  (forall s, s ∈ get_source_priority config param_name ->
             type s = "calculated" ->
             compute (formula s) ld1 config = compute (formula s) ld2 config) ->
  resolve_parameter is_valid compute param_name config ld1
  = resolve_parameter is_valid compute param_name config ld2.
Proof.
  unfold resolve_parameter.
  induction (get_source_priority config param_name) as [|s rest IH];
    intros Hreg Hcalc; [done|].
  cbn [resolve_sources].
  assert (try_source is_valid compute s config ld1
          = try_source is_valid compute s config ld2) as ->.
  { unfold try_source.
    destruct (String.eqb_spec (type s) "modbus") as [Hm|_].
    - rewrite (Hreg s); [done|by left|done].
    - destruct (String.eqb_spec (type s) "calculated") as [Hc|_]; [|done].
      rewrite (Hcalc s); [done|by left|done]. }
  rewrite IH; [done| |].
  - intros s' Hs'. apply Hreg. by right.
  - intros s' Hs'. apply Hcalc. by right.
Qed.

End resolver_frame.

Section resolver_extras_instances.
Import Resolver Engine Scenario Cases.

Lemma bad_result_iff_exhausted_witness :
  let config := mkConfig (fun _ => take 2 suction_chain) in
  Forall (entry_fails is_valid (compute approx_math ∅) config ∅)
    (get_source_priority config "SuctionTemp1")
  /\ exists r,
       resolve_parameter is_valid (compute approx_math ∅) "SuctionTemp1"
         config ∅ = Return r
       /\ pr_source r = "NONE".
Proof.
  cbv zeta.
  assert (Forall (entry_fails is_valid (compute approx_math ∅)
                    (mkConfig (fun _ => take 2 suction_chain)) ∅)
            (take 2 suction_chain)) as Hall.
  { repeat constructor; unfold entry_fails; run. }
  split; [exact Hall|].
  exact (proj2 (bad_result_iff_exhausted is_valid (compute approx_math ∅)
                  "SuctionTemp1" (mkConfig (fun _ => take 2 suction_chain))
                  ∅) Hall).
Defined.

Lemma live_result_is_validated_witness :
  let r := mkResult (Some 82.3%Q) "MODBUS" "GOOD" in
  resolve_parameter is_valid (compute approx_math ∅) "SuctionTemp1"
    suction_config fresh_reading = Return r
  /\ pr_source r = "MODBUS"
  /\ exists pre entry post v,
       get_source_priority suction_config "SuctionTemp1"
       = pre ++ entry :: post
       /\ Forall (entry_fails is_valid (compute approx_math ∅)
                    suction_config fresh_reading) pre
       /\ type entry = "modbus"
       /\ fresh_reading !! register entry = Some v
       /\ is_valid v (range entry) = true
       /\ r = mkResult (Some v) "MODBUS" "GOOD".
Proof.
  cbv zeta.
  assert (resolve_parameter is_valid (compute approx_math ∅) "SuctionTemp1"
            suction_config fresh_reading
          = Return (mkResult (Some 82.3%Q) "MODBUS" "GOOD")) as Hr by run.
  split; [exact Hr|]. split; [reflexivity|].
  exact (live_result_is_validated is_valid (compute approx_math ∅)
           "SuctionTemp1" suction_config fresh_reading _ Hr eq_refl).
Defined.

Lemma resolved_result_shape_witness :
  let r := mkResult (Some 80%Q) "MANUAL" "STATIC" in
  resolve_parameter is_valid (compute approx_math ∅) "SuctionTemp1"
    suction_config ∅ = Return r
  /\ badge r <> None.
Proof.
  cbv zeta.
  assert (resolve_parameter is_valid (compute approx_math ∅) "SuctionTemp1"
            suction_config ∅
          = Return (mkResult (Some 80%Q) "MANUAL" "STATIC")) as Hr by run.
  split; [exact Hr|].
  exact (proj2 (resolved_result_shape is_valid (compute approx_math ∅)
                  "SuctionTemp1" suction_config ∅ _ Hr)).
Defined.

(** The entry typed "Modbus" is skipped although [reg1] reads 10: the result
    is the reading of [reg2]. *)
Lemma failed_entries_are_transparent_witness :
  type (mkSource "Modbus" "reg1" (0, 200)%Q (FNum 0) None) <> "modbus"
  /\ resolve_sources is_valid (compute approx_math ∅) mistyped_chain
       suction_config two_registers
     = resolve_sources is_valid (compute approx_math ∅) (drop 1 mistyped_chain)
         suction_config two_registers
  /\ resolve_sources is_valid (compute approx_math ∅) mistyped_chain
       suction_config two_registers
     = Return (mkResult (Some 20%Q) "MODBUS" "GOOD").
Proof.
  split; [by vm_compute|].
  destruct (failed_entries_are_transparent is_valid (compute approx_math ∅)
              suction_config two_registers) as [_ Hskip].
  assert (resolve_sources is_valid (compute approx_math ∅) mistyped_chain
            suction_config two_registers
          = resolve_sources is_valid (compute approx_math ∅)
              (drop 1 mistyped_chain) suction_config two_registers) as Heq.
  { apply (Hskip [] (mkSource "Modbus" "reg1" (0, 200)%Q (FNum 0) None)
             (drop 1 mistyped_chain)); by vm_compute. }
  split; [exact Heq|]. rewrite Heq. run.
Defined.

(** With the evaluator that lets the division error escape, [1 / 0] aborts
    the resolution although a default of 75 stands behind it. *)
Lemma exception_escapes_iff_witness :
  resolve_parameter is_valid leaky_compute "P"
    (mkConfig (fun _ => division_chain)) ∅
  = Raise (OtherException "ZeroDivisionError").
Proof.
  apply (proj2 (exception_escapes_iff is_valid leaky_compute "P"
                  (mkConfig (fun _ => division_chain)) ∅
                  (OtherException "ZeroDivisionError"))).
  exists (take 1 division_chain),
         (CalculatedSource (FBin OpDiv (FNum 1) (FNum 0))),
         (drop 2 division_chain).
  split; [reflexivity|]. split.
  - repeat constructor; unfold entry_fails; run.
  - split; [reflexivity|]. split; [reflexivity|done].
Defined.

Lemma fallback_entry_excludes_bad_witness :
  (forall f e, compute approx_math ∅ f ∅ suction_config = Raise e ->
               e = CalculationError)
  /\ DefaultSource (Some 75%Q) ∈ get_source_priority suction_config "SuctionTemp1"
  /\ exists r,
       resolve_parameter is_valid (compute approx_math ∅) "SuctionTemp1"
         suction_config ∅ = Return r
       /\ pr_source r <> "NONE"
       /\ badge r <> Some BAD.
Proof.
  assert (forall f e, compute approx_math ∅ f ∅ suction_config = Raise e ->
                      e = CalculationError) as Hc.
  { intros f e. apply compute_error. }
  assert (DefaultSource (Some 75%Q)
          ∈ get_source_priority suction_config "SuctionTemp1") as Hin.
  { apply list_elem_of_In. vm_compute. tauto. }
  split; [exact Hc|]. split; [exact Hin|].
  exact (fallback_entry_excludes_bad is_valid (compute approx_math ∅)
           "SuctionTemp1" suction_config ∅ _ Hc Hin (or_intror eq_refl)).
Defined.

(** A reading of [reg2], which the chain does not name, changes nothing. *)
Lemma resolve_reads_only_chain_registers_witness :
  resolve_parameter is_valid (compute approx_math ∅) "SuctionTemp1"
    suction_config {[ "reg1" := 82.3%Q ]}
  = resolve_parameter is_valid (compute approx_math ∅) "SuctionTemp1"
      suction_config {[ "reg1" := 82.3%Q; "reg2" := 20%Q ]}.
Proof.
  apply resolve_reads_only_chain_registers.
  - intros s Hs Ht.
    assert (get_source_priority suction_config "SuctionTemp1" = suction_chain)
      as Hchain by reflexivity.
    rewrite Hchain in Hs. unfold suction_chain in Hs.
    repeat (apply elem_of_cons in Hs as [->|Hs]; [try run; try done|]).
    by apply elem_of_nil in Hs.
  - intros s _ _. reflexivity.
Defined.

End resolver_extras_instances.

(** * The dashboard's health score *)

Section health_facts.
Import Health.

Lemma Qminus_inject_Z a b : (inject_Z a - inject_Z b)%Q = inject_Z (a - b).
Proof. unfold Qminus, Qplus, Qopp, inject_Z. cbn. f_equal. lia. Qed.

Lemma Qmult_inject_Z a b : (inject_Z a * inject_Z b)%Q = inject_Z (a * b).
Proof. reflexivity. Qed.

Lemma Qle_bool_inject_Z a b : Qle_bool (inject_Z a) (inject_Z b) = (a <=? b)%Z.
Proof. unfold Qle_bool, inject_Z. cbn. by rewrite !Z.mul_1_r. Qed.

Lemma Qmin'_inject_Z a b :
  Engine.Qmin' (inject_Z a) (inject_Z b) = inject_Z (Z.min a b).
Proof.
  unfold Engine.Qmin'. rewrite Qle_bool_inject_Z.
  destruct (Z.leb_spec a b); f_equal; lia.
Qed.

Lemma Qmax'_inject_Z a b :
  Engine.Qmax' (inject_Z a) (inject_Z b) = inject_Z (Z.max a b).
Proof.
  unfold Engine.Qmax'. rewrite Qle_bool_inject_Z.
  destruct (Z.leb_spec a b); f_equal; lia.
Qed.

Lemma round_inject_Z z : round (inject_Z z) = inject_Z z.
Proof.
  unfold round. f_equal. unfold Qfloor, Qplus, inject_Z. cbn.
  symmetry. apply Z.div_unique with 1%Z; lia.
Qed.

Lemma clamp_inject_Z z lo hi :
  clamp (inject_Z z) (inject_Z lo) (inject_Z hi)
  = inject_Z (Z.max lo (Z.min hi z)).
Proof. unfold clamp. by rewrite Qmin'_inject_Z, Qmax'_inject_Z. Qed.

Lemma penalty_step (c1 c2 : bool) (z a b : Z) :
  (if c1 then inject_Z z - inject_Z a
   else if c2 then inject_Z z - inject_Z b else inject_Z z)%Q
  = inject_Z (z - (if c1 then a else if c2 then b else 0)).
Proof. destruct c1, c2; rewrite ?Qminus_inject_Z; f_equal; lia. Qed.

Variable Number : string -> number.
Variable ObjectToNumber : any -> number.
Variable StringOf : any -> string.
Variable toUpperCase : string -> string.
Variable now : Q.
Variable getTime : any -> option Q.

Local Abbreviation score :=
  (computeHealthScore Number ObjectToNumber StringOf toUpperCase now getTime).
Local Abbreviation penalty :=
  (total_penalty Number ObjectToNumber StringOf toUpperCase now getTime).

(** The score is 100 less the penalties, kept within 0..100. *)
Lemma computeHealthScore_eq liveData :
  score liveData = inject_Z (Z.max 0 (Z.min 100 (100 - penalty liveData))).
Proof.
  unfold computeHealthScore, total_penalty, oil_pressure_penalty,
    oil_temp_penalty, jacket_water_penalty, exhaust_penalty, state_penalty,
    alarm_penalty, age_penalty.
  cbv zeta.
  change 100%Q with (inject_Z 100). change 0%Q with (inject_Z 0).
  change 18%Q with (inject_Z 18). change 8%Q with (inject_Z 8).
  change 16%Q with (inject_Z 16). change 14%Q with (inject_Z 14).
  change 6%Q with (inject_Z 6). change 24%Q with (inject_Z 24).
  change 10%Q with (inject_Z 10). change 12%Q with (inject_Z 12).
  rewrite !penalty_step.
  rewrite Qmult_inject_Z, Qmin'_inject_Z, Qminus_inject_Z.
  destruct (truthy (get liveData "timestamp"));
    [destruct (age_of now getTime (get liveData "timestamp"))|];
    rewrite ?penalty_step, round_inject_Z, clamp_inject_Z; f_equal; lia.
Qed.

Lemma oil_pressure_penalty_range liveData :
  (0 <= oil_pressure_penalty Number ObjectToNumber liveData <= 18)%Z.
Proof. unfold oil_pressure_penalty. repeat case_match; lia. Qed.

Lemma oil_temp_penalty_range liveData :
  (0 <= oil_temp_penalty Number ObjectToNumber liveData <= 16)%Z.
Proof. unfold oil_temp_penalty. repeat case_match; lia. Qed.

Lemma jacket_water_penalty_range liveData :
  (0 <= jacket_water_penalty Number ObjectToNumber liveData <= 14)%Z.
Proof. unfold jacket_water_penalty. repeat case_match; lia. Qed.

Lemma exhaust_penalty_range liveData :
  (0 <= exhaust_penalty Number ObjectToNumber liveData <= 16)%Z.
Proof. unfold exhaust_penalty. repeat case_match; lia. Qed.

Lemma state_penalty_range liveData :
  (0 <= state_penalty StringOf toUpperCase liveData <= 24)%Z.
Proof. unfold state_penalty. repeat case_match; lia. Qed.

Lemma alarm_penalty_range liveData : (0 <= alarm_penalty liveData <= 24)%Z.
Proof. unfold alarm_penalty. lia. Qed.

Lemma age_penalty_range liveData :
  (0 <= age_penalty now getTime liveData <= 12)%Z.
Proof. unfold age_penalty. repeat case_match; lia. Qed.

Lemma healthTone_healthy z :
  label (healthTone (inject_Z z)) = "Healthy" <-> (85 <= z)%Z.
Proof.
  unfold healthTone. change 85%Q with (inject_Z 85).
  change 65%Q with (inject_Z 65). rewrite !Qle_bool_inject_Z.
  destruct (Z.leb_spec 85 z); [done|].
  destruct (Z.leb_spec 65 z); cbn; split; (done || lia).
Qed.

(** Not below one threshold, so not below a lower one. *)
Lemma lt_false_lower a x y :
  lt a (Finite x) = false -> (y <= x)%Q -> lt a (Finite y) = false.
Proof.
  destruct a as [| | |q]; cbn; try done.
  rewrite !negb_false_iff, !Qle_bool_iff. intros Hx Hy.
  by apply Qle_trans with x.
Qed.

(** Not above one threshold, so not above a higher one. *)
Lemma gt_false_higher a x y :
  gt a (Finite x) = false -> (x <= y)%Q -> gt a (Finite y) = false.
Proof.
  unfold gt. destruct a as [| | |q]; cbn; try done.
  rewrite !negb_false_iff, !Qle_bool_iff. intros Hx Hy.
  by apply Qle_trans with x.
Qed.

End health_facts.

Section health_properties.
Import Health.
Variable Number : string -> number.
Variable ObjectToNumber : any -> number.
Variable StringOf : any -> string.
Variable toUpperCase : string -> string.
Variable now : Q.
Variable getTime : any -> option Q.

Local Abbreviation score :=
  (computeHealthScore Number ObjectToNumber StringOf toUpperCase now getTime).
Local Abbreviation penalty :=
  (total_penalty Number ObjectToNumber StringOf toUpperCase now getTime).

Lemma penalty_nonneg liveData : (0 <= penalty liveData)%Z.
Proof.
  unfold total_penalty.
  pose proof (oil_pressure_penalty_range Number ObjectToNumber liveData).
  pose proof (oil_temp_penalty_range Number ObjectToNumber liveData).
  pose proof (jacket_water_penalty_range Number ObjectToNumber liveData).
  pose proof (exhaust_penalty_range Number ObjectToNumber liveData).
  pose proof (state_penalty_range StringOf toUpperCase liveData).
  pose proof (alarm_penalty_range liveData).
  pose proof (age_penalty_range now getTime liveData).
  lia.
Qed.

(** A penalty of at least 16 rules out the Healthy tone. *)
Lemma penalised_not_healthy liveData :
  (16 <= penalty liveData)%Z ->
  (score liveData <= 84)%Q /\ label (healthTone (score liveData)) <> "Healthy".
Proof.
  intros Hp. rewrite computeHealthScore_eq. split.
  - change 84%Q with (inject_Z 84). rewrite <- Zle_Qle. lia.
  - rewrite healthTone_healthy. lia.
Qed.

(** X9. An engine whose state label reads FAULT or UNKNOWN once upper-cased
    is never rated Healthy: its score is at most 76. A payload without a
    state label counts as UNKNOWN. *)
Theorem fault_state_is_never_healthy (liveData : any) :
  (state_of StringOf toUpperCase liveData = "FAULT"
   \/ state_of StringOf toUpperCase liveData = "UNKNOWN"
   \/ (truthy (get liveData "engine_state_label") = false
       /\ toUpperCase "UNKNOWN" = "UNKNOWN")) ->
  (computeHealthScore Number ObjectToNumber StringOf toUpperCase now getTime
     liveData <= 76)%Q
  /\ label (healthTone
       (computeHealthScore Number ObjectToNumber StringOf toUpperCase now
          getTime liveData)) <> "Healthy".
Proof.
  intros Hstate.
  assert (state_penalty StringOf toUpperCase liveData = 24%Z) as Hs.
  { unfold state_penalty.
    destruct Hstate as [->|[->|[Hfalsy Hup]]]; [done|done|].
    unfold state_of. rewrite Hfalsy. cbn [ToString]. by rewrite Hup. }
  pose proof (oil_pressure_penalty_range Number ObjectToNumber liveData).
  pose proof (oil_temp_penalty_range Number ObjectToNumber liveData).
  pose proof (jacket_water_penalty_range Number ObjectToNumber liveData).
  pose proof (exhaust_penalty_range Number ObjectToNumber liveData).
  pose proof (alarm_penalty_range liveData).
  pose proof (age_penalty_range now getTime liveData).
  assert (24 <= penalty liveData)%Z as Hp by (unfold total_penalty; lia).
  rewrite computeHealthScore_eq. split.
  - change 76%Q with (inject_Z 76). rewrite <- Zle_Qle. lia.
  - rewrite healthTone_healthy. lia.
Qed.

(** X10. A payload whose engine oil pressure reads below 35 is never rated
    Healthy: its score is at most 82. A payload with no oil pressure at all
    is such a payload, since a missing reading counts as 0. *)
Theorem low_oil_pressure_is_never_healthy (liveData : any) :
  (lt (asNumber Number ObjectToNumber (get liveData "engine_oil_press")
         (Finite 0)) (Finite 35) = true
   \/ get liveData "engine_oil_press" = Undefined) ->
  (computeHealthScore Number ObjectToNumber StringOf toUpperCase now getTime
     liveData <= 82)%Q
  /\ label (healthTone
       (computeHealthScore Number ObjectToNumber StringOf toUpperCase now
          getTime liveData)) <> "Healthy".
Proof.
  intros Hlow.
  assert (oil_pressure_penalty Number ObjectToNumber liveData = 18%Z) as Hs.
  { unfold oil_pressure_penalty.
    destruct Hlow as [-> | ->]; [done|]. by cbn. }
  pose proof (oil_temp_penalty_range Number ObjectToNumber liveData).
  pose proof (jacket_water_penalty_range Number ObjectToNumber liveData).
  pose proof (exhaust_penalty_range Number ObjectToNumber liveData).
  pose proof (state_penalty_range StringOf toUpperCase liveData).
  pose proof (alarm_penalty_range liveData).
  pose proof (age_penalty_range now getTime liveData).
  assert (18 <= penalty liveData)%Z as Hp by (unfold total_penalty; lia).
  rewrite computeHealthScore_eq. split.
  - change 82%Q with (inject_Z 82). rewrite <- Zle_Qle. lia.
  - rewrite healthTone_healthy. lia.
Qed.

(** X11. The risk list is never empty, and a payload with the full score of
    100 shows no warning: its risk list is the single line that no risk
    signature was found. *)
Theorem full_score_shows_no_risk (liveData : any) :
  riskItems Number ObjectToNumber liveData <> []
  /\ (computeHealthScore Number ObjectToNumber StringOf toUpperCase now
        getTime liveData = 100%Q ->
      riskItems Number ObjectToNumber liveData
      = ["No immediate risk signatures from current live envelope"]).
Proof.
  split.
  - unfold riskItems. cbv zeta.
    repeat match goal with
    | |- context [if lt ?a ?b then _ else _] => destruct (lt a b)
    | |- context [if gt ?a ?b then _ else _] => destruct (gt a b)
    end; by cbn.
  - rewrite computeHealthScore_eq. change 100%Q with (inject_Z 100).
    intros [= Hz].
    pose proof (oil_pressure_penalty_range Number ObjectToNumber liveData) as H1.
    pose proof (oil_temp_penalty_range Number ObjectToNumber liveData) as H2.
    pose proof (jacket_water_penalty_range Number ObjectToNumber liveData) as H3.
    pose proof (exhaust_penalty_range Number ObjectToNumber liveData) as H4.
    pose proof (state_penalty_range StringOf toUpperCase liveData).
    pose proof (alarm_penalty_range liveData).
    pose proof (age_penalty_range now getTime liveData).
    unfold total_penalty in Hz.
    assert (oil_pressure_penalty Number ObjectToNumber liveData = 0%Z) as E1
      by lia.
    assert (oil_temp_penalty Number ObjectToNumber liveData = 0%Z) as E2
      by lia.
    assert (jacket_water_penalty Number ObjectToNumber liveData = 0%Z) as E3
      by lia.
    assert (exhaust_penalty Number ObjectToNumber liveData = 0%Z) as E4
      by lia.
    clear - E1 E2 E3 E4.
    unfold oil_pressure_penalty in E1. unfold oil_temp_penalty in E2.
    unfold jacket_water_penalty in E3. unfold exhaust_penalty in E4.
    cbv zeta in E1, E2, E3, E4.
    unfold riskItems. cbv zeta.
    rewrite (lt_false_lower _ 45 40); [|by repeat case_match|done].
    rewrite (gt_false_higher _ 205 205); [|by repeat case_match|done].
    rewrite (gt_false_higher _ 190 195); [|by repeat case_match|done].
    rewrite (gt_false_higher _ 65 70); [|by repeat case_match|done].
    done.
Qed.

(** X12. Alarms only lower the score, and only the first three count: of
    two payloads that differ in nothing but their active alarms, the one
    with more alarms never scores higher, and with three or more alarms in
    both the scores are equal. *)
Theorem alarm_penalty_saturates (d1 d2 : any) :
  (forall key, key <> "active_alarms" -> get d1 key = get d2 key) ->
  (alarmCount_of d1 <= alarmCount_of d2 ->
   (computeHealthScore Number ObjectToNumber StringOf toUpperCase now getTime d2
    <= computeHealthScore Number ObjectToNumber StringOf toUpperCase now
         getTime d1)%Q)
  /\ (3 <= alarmCount_of d1 -> 3 <= alarmCount_of d2 ->
      computeHealthScore Number ObjectToNumber StringOf toUpperCase now getTime d1
      = computeHealthScore Number ObjectToNumber StringOf toUpperCase now
          getTime d2).
Proof.
  intros Hsame.
  assert (penalty d1 - alarm_penalty d1 = penalty d2 - alarm_penalty d2)%Z
    as Hrest.
  { unfold total_penalty, oil_pressure_penalty, oil_temp_penalty,
      jacket_water_penalty, exhaust_penalty, state_penalty, age_penalty,
      state_of.
    rewrite !(Hsame "engine_oil_press"), !(Hsame "engine_oil_temp"),
      !(Hsame "jacket_water_temp"), !(Hsame "exhaust_spread"),
      !(Hsame "engine_state_label"), !(Hsame "timestamp") by done.
    lia. }
  rewrite !computeHealthScore_eq. unfold alarm_penalty in Hrest. split.
  - intros Hle. rewrite <- Zle_Qle. lia.
  - intros H1 H2. f_equal. lia.
Qed.

End health_properties.

(** * The health score and the conversions that throw *)

Section health_conversions.
Import Health.
Variable Number : string -> number.
Variable ObjectToNumber : any -> outcome number.
Variable StringOf : any -> outcome string.
Variable toUpperCase : string -> string.
Variable now : Q.
Variable getTime : any -> outcome (option Q).

Local Abbreviation ObjectToNumber' :=
  (fun v => Throwing.returned NaN (ObjectToNumber v)).
Local Abbreviation StringOf' :=
  (fun v => Throwing.returned EmptyString (StringOf v)).
Local Abbreviation getTime' :=
  (fun v => Throwing.returned None (getTime v)).

Lemma ToNumber_returned v n :
  Throwing.ToNumber Number ObjectToNumber v = Return n ->
  ToNumber Number ObjectToNumber' v = n.
Proof.
  destruct v; cbn; try (by intros [= <-]); by intros ->.
Qed.

Lemma asNumber_cases v fallback :
  match Throwing.asNumber Number ObjectToNumber v fallback with
  | Return n =>
      asNumber Number ObjectToNumber' v fallback = n
      /\ exists m, Throwing.ToNumber Number ObjectToNumber v = Return m
  | Raise e => Throwing.ToNumber Number ObjectToNumber v = Raise e
  end.
Proof.
  unfold Throwing.asNumber, asNumber.
  destruct (Throwing.ToNumber Number ObjectToNumber v) as [m|e] eqn:Hv; cbn.
  - rewrite (ToNumber_returned _ _ Hv). eauto.
  - done.
Qed.

Lemma state_of_cases liveData :
  match Throwing.state_of StringOf toUpperCase liveData with
  | Return st =>
      state_of StringOf' toUpperCase liveData = st
      /\ exists t, Throwing.ToString StringOf (Throwing.state_label liveData)
                   = Return t
  | Raise e =>
      Throwing.ToString StringOf (Throwing.state_label liveData) = Raise e
  end.
Proof.
  unfold Throwing.state_of, state_of, Throwing.state_label.
  destruct (truthy (get liveData "engine_state_label")).
  - destruct (get liveData "engine_state_label") as [| |b|n|t|items|fields];
      cbn; eauto;
      match goal with
      | |- context [StringOf ?v] => destruct (StringOf v); cbn; eauto
      end.
  - cbn. eauto.
Qed.

Lemma age_of_cases ts :
  match Throwing.age_of now getTime ts with
  | Return age =>
      age_of now getTime' ts = age /\ exists t, getTime ts = Return t
  | Raise e => getTime ts = Raise e
  end.
Proof.
  unfold Throwing.age_of, age_of. destruct (getTime ts) as [t|e]; cbn; eauto.
Qed.

(** The function with the throwing conversions either throws what one of
    its conversions threw, or returns what [computeHealthScore] computes
    from the values the conversions returned. *)
Lemma computeHealthScore_cases liveData :
  match Throwing.computeHealthScore Number ObjectToNumber StringOf toUpperCase
          now getTime liveData with
  | Return s =>
      s = computeHealthScore Number ObjectToNumber' StringOf' toUpperCase now
            getTime' liveData
  | Raise e =>
      Throwing.conversion_raises Number ObjectToNumber StringOf getTime
        liveData e
  end.
Proof.
  unfold Throwing.computeHealthScore, computeHealthScore,
    Throwing.conversion_raises.
  cbv zeta.
  pose proof (asNumber_cases (get liveData "engine_oil_press") (Finite 0))
    as H1.
  destruct (Throwing.asNumber _ _ (get liveData "engine_oil_press") _)
    as [eop|e]; cbn;
    [destruct H1 as [-> _]
    |left; exists "engine_oil_press"; split; [set_solver|done]].
  pose proof (asNumber_cases (get liveData "engine_oil_temp") (Finite 0))
    as H2.
  destruct (Throwing.asNumber _ _ (get liveData "engine_oil_temp") _)
    as [eot|e]; cbn;
    [destruct H2 as [-> _]
    |left; exists "engine_oil_temp"; split; [set_solver|done]].
  pose proof (asNumber_cases (get liveData "jacket_water_temp") (Finite 0))
    as H3.
  destruct (Throwing.asNumber _ _ (get liveData "jacket_water_temp") _)
    as [jwt|e]; cbn;
    [destruct H3 as [-> _]
    |left; exists "jacket_water_temp"; split; [set_solver|done]].
  pose proof (asNumber_cases (get liveData "exhaust_spread") (Finite 0))
    as H4.
  destruct (Throwing.asNumber _ _ (get liveData "exhaust_spread") _)
    as [spread|e]; cbn;
    [destruct H4 as [-> _]
    |left; exists "exhaust_spread"; split; [set_solver|done]].
  pose proof (state_of_cases liveData) as H5.
  destruct (Throwing.state_of StringOf toUpperCase liveData) as [st|e]; cbn;
    [destruct H5 as [-> _]|by right; left].
  destruct (truthy (get liveData "timestamp")) eqn:Hts; cbn; [|done].
  pose proof (age_of_cases (get liveData "timestamp")) as H6.
  destruct (Throwing.age_of now getTime (get liveData "timestamp"))
    as [age|e]; cbn; [by destruct H6 as [-> _]|by right; right].
Qed.

(** X8. Whenever [computeHealthScore] returns, its result is a whole number
    from 0 to 100, whatever the payload holds: missing and non-numeric
    fields, any number of alarms and an unreadable timestamp included. It
    returns unless one of the conversions it runs on the payload (Number of
    the four readings, String of the state label, new Date of a truthy
    timestamp) throws, and what that conversion throws is then what it
    throws. *)
Theorem health_score_range (liveData : any) :
  (forall s,
     Throwing.computeHealthScore Number ObjectToNumber StringOf toUpperCase
       now getTime liveData = Return s ->
     exists z : Z, s = inject_Z z /\ (0 <= z <= 100)%Z)
  /\ (forall e,
        Throwing.computeHealthScore Number ObjectToNumber StringOf toUpperCase
          now getTime liveData = Raise e ->
        Throwing.conversion_raises Number ObjectToNumber StringOf getTime
          liveData e)
  /\ ((forall e,
         ~ Throwing.conversion_raises Number ObjectToNumber StringOf getTime
             liveData e) ->
      exists s,
        Throwing.computeHealthScore Number ObjectToNumber StringOf toUpperCase
          now getTime liveData = Return s).
Proof.
  pose proof (computeHealthScore_cases liveData) as Hcases.
  destruct (Throwing.computeHealthScore Number ObjectToNumber StringOf
              toUpperCase now getTime liveData) as [s|e].
  - split; [|split; [done|eauto]].
    intros s' [= <-]. rewrite Hcases, computeHealthScore_eq.
    eexists. split; [done|]. lia.
  - split; [done|]. split.
    + by intros e' [= <-].
    + intros Hnone. by destruct (Hnone e).
Qed.

End health_conversions.

Section health_instances.
Import Health Cases.

Example sound_payload_scores_100 : score_example sound_payload = 100%Q.
Proof. run. Qed.

Example unlabelled_payload_scores_76 :
  score_example unlabelled_payload = 76%Q.
Proof. run. Qed.

Lemma fault_state_is_never_healthy_witness :
  (truthy (get unlabelled_payload "engine_state_label") = false
   /\ toUpperCase_ascii "UNKNOWN" = "UNKNOWN")
  /\ (score_example unlabelled_payload <= 76)%Q
  /\ label (healthTone (score_example unlabelled_payload)) <> "Healthy".
Proof.
  assert (truthy (get unlabelled_payload "engine_state_label") = false
          /\ toUpperCase_ascii "UNKNOWN" = "UNKNOWN") as Hmissing.
  { split; run. }
  split; [exact Hmissing|].
  exact (fault_state_is_never_healthy ModbusMapping.Number_of_digits
           (fun _ => ModbusMapping.NaN) StringOf_example toUpperCase_ascii
           1000000 getTime_example unlabelled_payload
           (or_intror (or_intror Hmissing))).
Defined.

Lemma low_oil_pressure_is_never_healthy_witness :
  get no_pressure_payload "engine_oil_press" = Undefined
  /\ (score_example no_pressure_payload <= 82)%Q
  /\ label (healthTone (score_example no_pressure_payload)) <> "Healthy".
Proof.
  assert (get no_pressure_payload "engine_oil_press" = Undefined) as Hmissing
    by run.
  split; [exact Hmissing|].
  exact (low_oil_pressure_is_never_healthy ModbusMapping.Number_of_digits
           (fun _ => ModbusMapping.NaN) StringOf_example toUpperCase_ascii
           1000000 getTime_example no_pressure_payload
           (or_intror Hmissing)).
Defined.

Lemma full_score_shows_no_risk_witness :
  score_example sound_payload = 100%Q
  /\ riskItems ModbusMapping.Number_of_digits (fun _ => ModbusMapping.NaN)
       sound_payload
     = ["No immediate risk signatures from current live envelope"].
Proof.
  assert (score_example sound_payload = 100%Q) as Hfull by run.
  split; [exact Hfull|].
  exact (proj2 (full_score_shows_no_risk ModbusMapping.Number_of_digits
                  (fun _ => ModbusMapping.NaN) StringOf_example
                  toUpperCase_ascii 1000000 getTime_example sound_payload)
           Hfull).
Defined.

Lemma alarms_payload_get n m key :
  key <> "active_alarms" ->
  get (alarms_payload n) key = get (alarms_payload m) key.
Proof.
  intros Hkey. unfold get, alarms_payload. cbn [find fst snd].
  repeat match goal with
  | |- context [String.eqb ?k key] =>
      destruct (String.eqb_spec k key); [done || congruence|]
  end.
  done.
Qed.

(** Three alarms and five alarms cost the same. *)
Lemma alarm_penalty_saturates_witness :
  (forall key, key <> "active_alarms" ->
               get (alarms_payload 3) key = get (alarms_payload 5) key)
  /\ 3 <= alarmCount_of (alarms_payload 3)
  /\ 3 <= alarmCount_of (alarms_payload 5)
  /\ score_example (alarms_payload 3) = score_example (alarms_payload 5).
Proof.
  assert (forall key, key <> "active_alarms" ->
                      get (alarms_payload 3) key = get (alarms_payload 5) key)
    as Hsame by (intros key; apply alarms_payload_get).
  assert (3 <= alarmCount_of (alarms_payload 3)) as H3 by (vm_compute; lia).
  assert (3 <= alarmCount_of (alarms_payload 5)) as H5 by (vm_compute; lia).
  split; [exact Hsame|]. split; [exact H3|]. split; [exact H5|].
  exact (proj2 (alarm_penalty_saturates ModbusMapping.Number_of_digits
                  (fun _ => ModbusMapping.NaN) StringOf_example
                  toUpperCase_ascii 1000000 getTime_example
                  (alarms_payload 3) (alarms_payload 5) Hsame) H3 H5).
Defined.

(** With the conversions that throw, the sound payload still scores 100. *)
Example sound_payload_returns_100 :
  Throwing.computeHealthScore ModbusMapping.Number_of_digits
    ObjectToNumber_example StringOf_or_throw toUpperCase_ascii 1000000
    getTime_or_throw sound_payload
  = Return 100%Q.
Proof. run. Qed.

(** An oil pressure that is the object [{toString: 1}] makes the score
    throw, and what it throws is what [Number] threw on that field. *)
Lemma health_score_range_witness :
  Throwing.computeHealthScore ModbusMapping.Number_of_digits
    ObjectToNumber_example StringOf_or_throw toUpperCase_ascii 1000000
    getTime_or_throw unconvertible_payload
  = Raise Dashboard.TypeError
  /\ Throwing.conversion_raises ModbusMapping.Number_of_digits
       ObjectToNumber_example StringOf_or_throw getTime_or_throw
       unconvertible_payload Dashboard.TypeError.
Proof.
  assert (Throwing.computeHealthScore ModbusMapping.Number_of_digits
            ObjectToNumber_example StringOf_or_throw toUpperCase_ascii 1000000
            getTime_or_throw unconvertible_payload
          = Raise Dashboard.TypeError) as Hthrows by reflexivity.
  split; [exact Hthrows|].
  exact (proj1 (proj2 (health_score_range ModbusMapping.Number_of_digits
                         ObjectToNumber_example StringOf_or_throw
                         toUpperCase_ascii 1000000 getTime_or_throw
                         unconvertible_payload))
           Dashboard.TypeError Hthrows).
Defined.

End health_instances.

(** * More on the quality badge: which alias supplies it *)

Section badge_lookup.
Import Dashboard.

Lemma truthy_nonempty q : truthy q = true <-> q <> "".
Proof.
  unfold truthy. destruct (String.eqb_spec q ""); cbn; split; congruence.
Qed.

Lemma first_source_cases (srcs : gmap string string) keys :
  match first_source srcs keys with
  | Some q =>
      q <> ""
      /\ exists pre key post,
           keys = pre ++ key :: post
           /\ srcs !! key = Some q
           /\ forall k, k ∈ pre -> srcs !! k = None \/ srcs !! k = Some ""
  | None => forall k, k ∈ keys -> srcs !! k = None \/ srcs !! k = Some ""
  end.
Proof.
  induction keys as [|key rest IH]; cbn.
  - intros k Hk. by apply elem_of_nil in Hk.
  - assert (srcs !! key = None \/ srcs !! key = Some ""
            \/ exists q, srcs !! key = Some q /\ truthy q = true) as Hkey.
    { destruct (srcs !! key) as [q|]; [|by left].
      destruct (truthy q) eqn:Ht; [right; right; by exists q|].
      right; left. f_equal. unfold truthy in Ht.
      by destruct (String.eqb_spec q ""). }
    destruct Hkey as [Hk | [Hk | (q & Hk & Ht)]].
    + rewrite Hk. destruct (first_source srcs rest) as [q|].
      * destruct IH as (Hq & pre & key' & post & -> & Hlook & Hpre).
        split; [done|]. exists (key :: pre), key', post.
        split; [done|]. split; [done|].
        intros k [-> | Hin]%elem_of_cons; [by left|by apply Hpre].
      * intros k [-> | Hin]%elem_of_cons; [by left|by apply IH].
    + rewrite Hk. cbn. destruct (first_source srcs rest) as [q|].
      * destruct IH as (Hq & pre & key' & post & -> & Hlook & Hpre).
        split; [done|]. exists (key :: pre), key', post.
        split; [done|]. split; [done|].
        intros k [-> | Hin]%elem_of_cons; [by right|by apply Hpre].
      * intros k [-> | Hin]%elem_of_cons; [by right|by apply IH].
    + rewrite Hk, Ht. split; [by apply truthy_nonempty|].
      exists [], key, rest. split; [done|]. split; [done|].
      intros k Hin. by apply elem_of_nil in Hin.
Qed.

(** X13. For a parameter name that is none of the names an object literal
    inherits, [getQuality] returns a badge, which is never the empty string:
    it is the tag the snapshot's [sources] holds under the first of the
    parameter's keys (its aliases in their order, or its own name) that has a
    non-empty tag, an empty tag being passed over like a missing one, and it
    is ['LIVE'] when no key has a non-empty tag. For an inherited name
    ([constructor], [toString], [__proto__] and the like) [getQuality]
    throws a TypeError instead. *)
Theorem getQuality_first_tagged_alias (liveData : LiveDataResponse)
    (param : string) :
  (inherited param = true -> getQuality liveData param = Raise TypeError)
  /\ (inherited param = false ->
      exists q,
        getQuality liveData param = Return q
        /\ q <> ""
        /\ ((exists pre key post,
               default [param] (sourceAliases !! param) = pre ++ key :: post
               /\ default ∅ (sources liveData) !! key = Some q
               /\ forall k, k ∈ pre ->
                    default ∅ (sources liveData) !! k = None
                    \/ default ∅ (sources liveData) !! k = Some "")
            \/ (q = "LIVE"
                /\ forall k, k ∈ default [param] (sourceAliases !! param) ->
                     default ∅ (sources liveData) !! k = None
                     \/ default ∅ (sources liveData) !! k = Some ""))).
Proof.
  unfold getQuality. split.
  - intros Hin. by rewrite alias_keys_inherited.
  - intros Hown. rewrite alias_keys_own by done.
    change (match sources liveData with Some m => m | None => ∅ end)
      with (default (∅ : gmap string string) (sources liveData)).
    pose proof (first_source_cases (default ∅ (sources liveData))
                  (default [param] (sourceAliases !! param))) as Hcases.
    destruct (first_source (default ∅ (sources liveData))
                (default [param] (sourceAliases !! param))) as [q|].
    + destruct Hcases as (Hq & pre & key & post & Hkeys & Hlook & Hpre).
      exists q. split; [done|]. split; [done|].
      left. by exists pre, key, post.
    + exists "LIVE". split; [done|]. split; [done|]. by right.
Qed.

(** The alias supplies the badge when the parameter's own tag is empty. *)
Example getQuality_skips_empty_tag :
  getQuality Cases.aliased_sources "engine_oil_press" = Return "MANUAL".
Proof. run. Qed.

End badge_lookup.

(** * More on the calibration dialog: what it touches, and opening it *)

Section dialog_frame.
Import ModbusMapping.
Variable Number : string -> number.
Variable StringOf : number -> string.

(** X14. Applying the dialog touches one register only, and on it only the
    fields of the dialog: the page keeps its number of registers, every
    register at another index is what it was, the dialog is closed, and the
    edited register keeps its address, name, description, bit, data type,
    category, poll group, type, nominal and default value, live value,
    source priority and formula; on a Discrete register the limits are
    kept as well. *)
Theorem applyCalibrationDialog_frame (st : PageState) (i : nat) :
  calibrationIndex st = Some i ->
  length (registers (applyCalibrationDialog Number st))
  = length (registers st)
  /\ calibrationIndex (applyCalibrationDialog Number st) = None
  /\ (forall j, j <> i ->
        registers (applyCalibrationDialog Number st) !! j
        = registers st !! j)
  /\ (forall current,
        registers st !! i = Some current ->
        exists edited,
          registers (applyCalibrationDialog Number st) !! i = Some edited
          /\ address edited = address current
          /\ name edited = name current
          /\ description edited = description current
          /\ bit edited = bit current
          /\ dataType edited = dataType current
          /\ category edited = category current
          /\ pollGroup edited = pollGroup current
          /\ type edited = type current
          /\ nominal edited = nominal current
          /\ default edited = default current
          /\ liveValue edited = liveValue current
          /\ sourcePriority edited = sourcePriority current
          /\ calcFormula edited = calcFormula current
          /\ (type current = Some Discrete ->
              min edited = min current /\ max edited = max current))
  /\ (registers st !! i = None ->
      registers (applyCalibrationDialog Number st) = registers st).
Proof.
  intros Hidx. unfold applyCalibrationDialog. rewrite Hidx. cbn.
  split; [|split; [done|split; [|split]]].
  - destruct (registers st !! i); [apply length_insert|done].
  - intros j Hj. destruct (registers st !! i); [|done].
    by apply list_lookup_insert_ne.
  - intros current Hi. rewrite Hi.
    exists (calibrated Number (calibrationDraft st) current).
    split; [apply list_lookup_insert_eq; by eapply lookup_lt_Some|].
    repeat (split; [done|]).
    intros Htype. unfold calibrated. cbn. by rewrite Htype.
  - by intros ->.
Qed.

(** X15. Whatever was typed into the dialog, the register it writes has a
    finite scale and a finite offset (1 and 0 replace an input that is no
    finite number), and its unit is never the placeholder ['none'], which
    is stored as the empty unit. *)
Theorem applyCalibrationDialog_normalises (st : PageState) (i : nat)
    (current : RegisterMapping) :
  calibrationIndex st = Some i ->
  registers st !! i = Some current ->
  exists edited,
    registers (applyCalibrationDialog Number st) !! i = Some edited
    /\ isFinite (scale edited) = true
    /\ isFinite (offset edited) = true
    /\ unit edited <> "none"
    /\ (draft_unit (calibrationDraft st) = "none" -> unit edited = "")
    /\ (isFinite (Number (draft_scale (calibrationDraft st))) = false ->
        scale edited = Finite 1)
    /\ (isFinite (Number (draft_offset (calibrationDraft st))) = false ->
        offset edited = Finite 0).
Proof.
  intros Hidx Hi. unfold applyCalibrationDialog. rewrite Hidx, Hi. cbn.
  exists (calibrated Number (calibrationDraft st) current).
  split; [apply list_lookup_insert_eq; by eapply lookup_lt_Some|].
  unfold calibrated. cbn.
  split; [|split; [|split; [|split; [|split]]]].
  - by destruct (isFinite (Number (draft_scale (calibrationDraft st))))
      eqn:Hs.
  - by destruct (isFinite (Number (draft_offset (calibrationDraft st))))
      eqn:Ho.
  - by destruct (String.eqb_spec (draft_unit (calibrationDraft st)) "none").
  - by intros ->.
  - by intros ->.
  - by intros ->.
Qed.

Lemma calibrated_draft_of (reg : RegisterMapping) :
  unit reg <> "none" ->
  isFinite (scale reg) = true ->
  isFinite (offset reg) = true ->
  valueMode reg <> None ->
  manual_only_in_manual_mode reg ->
  (forall n,
     Some n ∈ [Some (scale reg); Some (offset reg); min reg; max reg;
               manualValue reg] ->
     Number (StringOf n) = n /\ trim (StringOf n) <> "") ->
  calibrated Number (draft_of StringOf reg) reg = reg.
Proof.
  intros Hunit Hscale Hoffset Hmode Hinv Hprint.
  assert (forall v, v ∈ [min reg; max reg; manualValue reg] ->
            (if String.eqb (trim (field_text StringOf v "")) "" then None
             else Some (Number (field_text StringOf v ""))) = v) as Hfield.
  { intros [n|] Hv; [|done]. cbn [field_text].
    destruct (Hprint n) as [Hback Hfilled].
    { by do 2 apply list_elem_of_further. }
    destruct (String.eqb_spec (trim (StringOf n)) ""); [done|].
    by rewrite Hback. }
  destruct (Hprint (scale reg)) as [Hs _]; [apply list_elem_of_here|].
  destruct (Hprint (offset reg)) as [Ho _];
    [apply list_elem_of_further, list_elem_of_here|].
  pose proof (Hfield (min reg)) as Hmin.
  pose proof (Hfield (max reg)) as Hmax.
  pose proof (Hfield (manualValue reg)) as Hmanual.
  unfold manual_only_in_manual_mode in Hinv.
  destruct reg as [a nm d b u sc off dt cat pg ty mn mx nom dflt lv vm mv
                     sp cf idp caf sr].
  unfold calibrated, draft_of. cbn -[trim field_text] in *.
  change (field_text StringOf (Some sc) "1") with (StringOf sc).
  change (field_text StringOf (Some off) "0") with (StringOf off).
  rewrite Hs, Ho, Hscale, Hoffset.
  rewrite Hmin by (apply list_elem_of_here).
  rewrite Hmax by (apply list_elem_of_further, list_elem_of_here).
  assert ((if String.eqb (if String.eqb u "" then "none" else u) "none"
           then "" else if String.eqb u "" then "none" else u) = u) as ->.
  { destruct (String.eqb_spec u "") as [->|]; [done|].
    by destruct (String.eqb_spec u "none"). }
  assert (match
            match vm with Some ValueMANUAL => ValueMANUAL | _ => ValueLIVE end
          with
          | ValueMANUAL =>
              if String.eqb (trim (field_text StringOf mv "")) "" then None
              else Some (Number (field_text StringOf mv ""))
          | ValueLIVE => None
          end = mv) as ->.
  { destruct vm as [[|]|]; [| |done].
    - destruct mv as [n|]; [|done]. by specialize (Hinv ltac:(done)).
    - apply Hmanual. do 2 apply list_elem_of_further. apply list_elem_of_here. }
  assert (Some (match vm with Some ValueMANUAL => ValueMANUAL
                | _ => ValueLIVE end) = vm) as ->.
  { by destruct vm as [[|]|]. }
  by destruct ty as [[|]|].
Qed.

(** X16. Opening the dialog on a register and applying it unchanged gives
    the registers back as they were, for a register whose unit is not the
    literal ['none'], whose scale and offset are finite, whose value mode is
    set, which holds a manual value only in MANUAL mode, and whose numbers
    print to a non-blank text that converts back to them. *)
Theorem open_then_apply_restores (st : PageState) (i : nat)
    (reg : RegisterMapping) :
  registers st !! i = Some reg ->
  unit reg <> "none" ->
  isFinite (scale reg) = true ->
  isFinite (offset reg) = true ->
  valueMode reg <> None ->
  manual_only_in_manual_mode reg ->
  (forall n,
     Some n ∈ [Some (scale reg); Some (offset reg); min reg; max reg;
               manualValue reg] ->
     Number (StringOf n) = n /\ trim (StringOf n) <> "") ->
  registers (applyCalibrationDialog Number (openCalibrationDialog StringOf st i))
  = registers st
  /\ calibrationIndex
       (applyCalibrationDialog Number (openCalibrationDialog StringOf st i))
     = None.
Proof.
  intros Hi Hunit Hscale Hoffset Hmode Hinv Hprint.
  unfold openCalibrationDialog. rewrite Hi.
  unfold applyCalibrationDialog. cbn. rewrite Hi.
  split; [|done].
  rewrite calibrated_draft_of by done. by apply list_insert_id.
Qed.

End dialog_frame.

Section dialog_instances.
Import ModbusMapping Scenario Cases.

Lemma applyCalibrationDialog_frame_witness :
  calibrationIndex open_dialog = Some 1%nat
  /\ length (registers (applyCalibrationDialog Number_of_digits open_dialog))
     = 2%nat
  /\ registers (applyCalibrationDialog Number_of_digits open_dialog) !! 0%nat
     = Some (plain_register "suction_press" ValueLIVE None).
Proof.
  assert (calibrationIndex open_dialog = Some 1%nat) as Hidx by reflexivity.
  split; [exact Hidx|].
  pose proof (applyCalibrationDialog_frame Number_of_digits open_dialog 1
                Hidx) as (Hlen & _ & Hother & _).
  split; [exact Hlen|]. exact (Hother 0%nat ltac:(lia)).
Defined.

Lemma applyCalibrationDialog_normalises_witness :
  calibrationIndex open_dialog = Some 1%nat
  /\ exists edited,
       registers (applyCalibrationDialog Number_of_digits open_dialog) !! 1%nat
       = Some edited
       /\ isFinite (scale edited) = true
       /\ isFinite (offset edited) = true
       /\ unit edited <> "none".
Proof.
  assert (calibrationIndex open_dialog = Some 1%nat) as Hidx by reflexivity.
  split; [exact Hidx|].
  destruct (applyCalibrationDialog_normalises Number_of_digits open_dialog 1
              (plain_register "discharge_press" ValueMANUAL (Some (Finite 12)))
              Hidx eq_refl)
    as (edited & Hlook & Hscale & Hoffset & Hunit & _).
  exists edited. repeat split; assumption.
Defined.

Lemma limited_register_prints_back n :
  Some n ∈ [Some (scale limited_register); Some (offset limited_register);
            min limited_register; max limited_register;
            manualValue limited_register] ->
  Number_of_digits (StringOf_natural n) = n
  /\ trim (StringOf_natural n) <> "".
Proof.
  cbn [limited_register scale offset min max manualValue].
  intros Hn.
  repeat (apply elem_of_cons in Hn as [[= ->] | Hn];
          [split; [run | vm_compute; discriminate]|]).
  by apply elem_of_nil in Hn.
Qed.

(** The limits 0 and 1500 and the manual value 640 survive the dialog. *)
Lemma open_then_apply_restores_witness :
  registers limited_page !! 1%nat = Some limited_register
  /\ registers
       (applyCalibrationDialog Number_of_digits
          (openCalibrationDialog StringOf_natural limited_page 1))
     = registers limited_page.
Proof.
  assert (registers limited_page !! 1%nat = Some limited_register) as Hreg
    by reflexivity.
  split; [exact Hreg|].
  refine (proj1 (open_then_apply_restores Number_of_digits StringOf_natural
                   limited_page 1 limited_register Hreg _ _ _ _ _
                   limited_register_prints_back)).
  - vm_compute; discriminate.
  - reflexivity.
  - reflexivity.
  - vm_compute; discriminate.
  - intros _. reflexivity.
Defined.

(** A register whose unit is the literal ['none'] does not survive it. *)
Example open_then_apply_drops_none_unit :
  let reg :=
    mkRegister (Finite 1) "r" "" None "none" (Finite 1) (Finite 0) "uint16"
      "general" "A" None None None None None None (Some ValueLIVE) None None
      None None None None in
  unit <$> (registers
              (applyCalibrationDialog Number_of_digits
                 (openCalibrationDialog StringOf_natural
                    (mkPage [reg] None (calibrationDraft limited_page)) 0))
            !! 0%nat)
  = Some "".
Proof. run. Qed.

End dialog_instances.

(** * The API client's token *)

Section auth_properties.
Import Health Auth.
Variable JSONparse : string -> option any.
Variable StringOf : any -> string.

Lemma getAuthToken_direct (storage : Storage) (token : string) :
  storage !! "auth_token" = Some token ->
  token <> "" ->
  getAuthToken JSONparse storage = Str token.
Proof.
  intros Hlook Hne. unfold getAuthToken, readInitialAuthToken.
  rewrite Hlook. by destruct (String.eqb_spec token "").
Qed.

Lemma authHeaders_of_token (storage : Storage) (token : string) :
  getAuthToken JSONparse storage = Str token ->
  token <> "" ->
  authHeaders JSONparse StringOf storage !! "Authorization"
  = Some ("Bearer " +:+ token).
Proof.
  intros Hget Hne. unfold authHeaders. rewrite Hget. cbn [truthy ToString].
  destruct (String.eqb_spec token ""); [done|]. cbn [negb].
  apply lookup_insert_eq.
Qed.

Lemma authHeaders_content_type (storage : Storage) :
  authHeaders JSONparse StringOf storage !! "Content-Type"
  = Some "application/json".
Proof.
  unfold authHeaders. destruct (truthy (getAuthToken JSONparse storage)).
  - rewrite lookup_insert_ne by done. apply lookup_singleton_eq.
  - apply lookup_singleton_eq.
Qed.

(** X17. A non-empty token stored with [setAuthToken] is the token read
    back, whatever else the browser store holds (a token persisted by
    another store module included), and every request then carries it as
    [Authorization: Bearer <token>] beside the JSON content type. *)
Theorem stored_token_is_sent (token : string) (storage : Storage) :
  token <> "" ->
  getAuthToken JSONparse (setAuthToken (Some token) storage) = Str token
  /\ authHeaders JSONparse StringOf (setAuthToken (Some token) storage)
       !! "Authorization" = Some ("Bearer " +:+ token)
  /\ authHeaders JSONparse StringOf (setAuthToken (Some token) storage)
       !! "Content-Type" = Some "application/json".
Proof.
  intros Hne.
  assert (getAuthToken JSONparse (setAuthToken (Some token) storage)
          = Str token) as Hget.
  { apply getAuthToken_direct; [|done]. unfold setAuthToken.
    destruct (String.eqb_spec token ""); [done|]. apply lookup_insert_eq. }
  split; [done|]. split.
  - by apply authHeaders_of_token.
  - apply authHeaders_content_type.
Qed.

(** X18. [logout] removes the [auth_token] entry of the browser store and
    nothing else. A token persisted under [gcs-auth-storage] is therefore
    still read back and still sent after logout; without a persisted state,
    or with one that does not parse, no token is left and the requests carry
    no [Authorization] header. *)
Theorem logout_keeps_persisted_token (storage : Storage) :
  logout storage !! "auth_token" = None
  /\ (forall key, key <> "auth_token" ->
        logout storage !! key = storage !! key)
  /\ (forall text parsed tok,
        storage !! "gcs-auth-storage" = Some text ->
        text <> "" ->
        JSONparse text = Some parsed ->
        get (get parsed "state") "token" = Str tok ->
        tok <> "" ->
        getAuthToken JSONparse (logout storage) = Str tok
        /\ authHeaders JSONparse StringOf (logout storage) !! "Authorization"
           = Some ("Bearer " +:+ tok))
  /\ ((storage !! "gcs-auth-storage" = None
       \/ exists text, storage !! "gcs-auth-storage" = Some text
                       /\ JSONparse text = None) ->
      getAuthToken JSONparse (logout storage) = Null
      /\ authHeaders JSONparse StringOf (logout storage) !! "Authorization"
         = None).
Proof.
  unfold logout, setAuthToken.
  split; [apply lookup_delete_eq|].
  split; [intros key Hkey; by apply lookup_delete_ne|].
  split.
  - intros text parsed tok Hlook Htext Hparse Htok Hne.
    assert (getAuthToken JSONparse (delete "auth_token" storage) = Str tok)
      as Hget.
    { unfold getAuthToken, readInitialAuthToken.
      rewrite lookup_delete_eq, lookup_delete_ne by done.
      rewrite Hlook, Hparse, Htok.
      by destruct (String.eqb_spec text ""). }
    split; [done|]. by apply authHeaders_of_token.
  - intros Hnone.
    assert (getAuthToken JSONparse (delete "auth_token" storage) = Null)
      as Hget.
    { unfold getAuthToken, readInitialAuthToken.
      rewrite lookup_delete_eq, lookup_delete_ne by done.
      destruct Hnone as [-> | (text & -> & ->)]; [done|].
      by destruct (String.eqb text ""). }
    split; [done|]. unfold authHeaders. rewrite Hget. cbn [truthy].
    by rewrite lookup_singleton_ne.
Qed.

End auth_properties.

Section auth_instances.
Import Health Auth Cases.

Lemma stored_token_is_sent_witness :
  "tok-3" <> ""
  /\ getAuthToken JSONparse_example (setAuthToken (Some "tok-3") persisted_store)
     = Str "tok-3".
Proof.
  assert ("tok-3" <> "") as Hne by discriminate.
  split; [exact Hne|].
  exact (proj1 (stored_token_is_sent JSONparse_example StringOf_example
                  "tok-3" persisted_store Hne)).
Defined.

(** After logout the persisted token [tok-2] is the one sent. *)
Lemma logout_keeps_persisted_token_witness :
  getAuthToken JSONparse_example (logout persisted_store) = Str "tok-2"
  /\ authHeaders JSONparse_example StringOf_example (logout persisted_store)
       !! "Authorization" = Some "Bearer tok-2".
Proof.
  destruct (logout_keeps_persisted_token JSONparse_example StringOf_example
              persisted_store) as (_ & _ & Hpersisted & _).
  refine (Hpersisted "persisted" _ "tok-2" _ _ eq_refl eq_refl _).
  - reflexivity.
  - discriminate.
  - discriminate.
Defined.

End auth_instances.
